(** * Screen locker: the Application controller of screenlocker/application.cpp

    A shallow embedding of [Application], the object that owns one overlay
    window ([QQuickView]) per screen, and of its slots and event filter.

    Objects of the toolkit are handles: a view is a pointer into a heap of
    view records, a screen is a pointer the toolkit hands out.  Every method
    is a computation in a small state-and-fault monad: it threads the
    application's state and stops with a fault where the C++ would
    dereference a dangling pointer or index a list out of range.  Calls into
    the toolkit that leave nothing to read back (raise, requestActivate,
    deleteLater, sendEvent, qWarning, exit, ...) are recorded, in order, in a
    trace.

    What is taken from the toolkit rather than modelled:
    - the desktop (screens(), primaryScreen(), the cursor position) is fixed
      for the length of one callback and may change between callbacks;
    - the handler of a receiver decides the accepted flag an event is left
      with and does not call back into the application;
    - geometry, screen, flags, visibility and keyboard grab of a window are
      separate fields, each changed by its own setter only;
    - the authenticator and the QML engine are outside: [onSucceeded] is the
      slot the authenticator's signal is connected to. *)

From Stdlib Require Import ZArith.
From stdpp Require Import gmap list.

Local Open Scope Z_scope.

(** ** Toolkit data *)

(** Views and screens are addresses; [nullptr] is [None] where a pointer may
    be null. *)
Abbreviation ViewPtr := positive (only parsing).
Abbreviation ScreenPtr := positive (only parsing).

(** [int]: 32-bit two's complement, wrap-around written out. *)
Definition INT_MIN : Z := - 2 ^ 31.
Definition INT_MAX : Z := 2 ^ 31 - 1.
Definition int (z : Z) : Z := (z + 2 ^ 31) mod 2 ^ 32 - 2 ^ 31.
Definition int_add (a b : Z) : Z := int (a + b).
Definition int_neg (a : Z) : Z := int (- a).

(** [QRect] and [QPoint] through their public accessors x(), y(), width(),
    height(). *)
Record QPoint := mkPoint { px : Z; py : Z }.
Record QRect := mkRect { rx : Z; ry : Z; rwidth : Z; rheight : Z }.

(** Qt::Key_Escape *)
Definition Key_Escape : Z := 0x01000000.

(** [QEvent::type()], with the key of a [QKeyEvent] carried by the two key
    event types, so that the static_cast of [eventFilter] is well typed. *)
Inductive EventKind :=
| Show
| MouseButtonPress
| KeyPress (key : Z)
| KeyRelease (key : Z)
| OtherEvent (t : N).

#[global] Instance EventKind_eq_dec : EqDecision EventKind.
Proof. solve_decision. Defined.

Record QEvent := mkEvent { kind : EventKind; accepted : bool }.

Definition setAccepted (b : bool) (e : QEvent) : QEvent :=
  {| kind := kind e; accepted := b |}.

(** The objects an event can be addressed to: the application itself
    ([this]), a [QQuickView] (whether or not it is one of [m_views]), or any
    other [QObject]. *)
Inductive QObject :=
| ObjApplication
| ObjView (v : ViewPtr)
| ObjOther (n : positive).

#[global] Instance QObject_eq_dec : EqDecision QObject.
Proof. solve_decision. Defined.

(** [qobject_cast<QQuickView *>(obj)] *)
Definition qobject_cast_view (obj : QObject) : option ViewPtr :=
  match obj with
  | ObjView v => Some v
  | _ => None
  end.

Inductive Visibility := Hidden | Windowed | FullScreen.
Inductive EasingCurve := Linear | OutSine.

(** The part of a [QQuickView] the controller reads or writes. *)
Record QQuickView := mkView {
  geometry : QRect;
  screen : option ScreenPtr;
  frameless : bool;            (* flags() == Qt::FramelessWindowHint *)
  visibility : Visibility;
  keyboardGrab : bool;         (* setKeyboardGrabEnabled *)
  viewVisible : bool;          (* the QML root object's "viewVisible" *)
}.

Record QVariantAnimation := mkAnimation {
  ani_target : ViewPtr;        (* the view captured by the valueChanged lambda *)
  ani_duration : Z;
  ani_easing : EasingCurve;
  ani_startValue : Z;
  ani_endValue : Z;
}.

(** What [QGuiApplication] reports about the desktop. *)
Record Desktop := mkDesktop {
  screens : list ScreenPtr;
  primaryScreen : option ScreenPtr;
  screenGeometry : ScreenPtr -> QRect;
  cursorPos : QPoint;          (* QCursor::pos() *)
}.

(** Toolkit calls kept in the trace. *)
Inductive Call :=
| CDeleteLater (v : ViewPtr)
| CConnectFrameSwapped (v : ViewPtr)
| CDisconnectFrameSwapped (v : ViewPtr)
| CConnectGeometryChanged (s : ScreenPtr)
| CRaise (v : ViewPtr)
| CRequestActivate (v : ViewPtr)
| CInvokeQueuedGetFocus
| CRemoveEventFilter
| CInstallEventFilter
| CSendEvent (receiver : QObject) (e : QEvent) (filtered : bool)
| CDeliver (receiver : QObject) (e : QEvent)
| CWarning (screenIndex : Z)
| CAnimationStart (a : QVariantAnimation)
| CExit.

(** ** The application object *)

Record Application := mkApp {
  desktop : Desktop;
  m_views : list ViewPtr;
  m_testing : bool;
  heap : gmap positive QQuickView;
  filterInstalled : bool;      (* installEventFilter(this) is in effect *)
  trace : list Call;
}.

Definition set_views (vs : list ViewPtr) (st : Application) : Application :=
  mkApp (desktop st) vs (m_testing st) (heap st) (filterInstalled st) (trace st).
Definition set_heap (h : gmap positive QQuickView) (st : Application) : Application :=
  mkApp (desktop st) (m_views st) (m_testing st) h (filterInstalled st) (trace st).
Definition set_filter (b : bool) (st : Application) : Application :=
  mkApp (desktop st) (m_views st) (m_testing st) (heap st) b (trace st).
Definition set_desktop (d : Desktop) (st : Application) : Application :=
  mkApp d (m_views st) (m_testing st) (heap st) (filterInstalled st) (trace st).
Definition log (c : Call) (st : Application) : Application :=
  mkApp (desktop st) (m_views st) (m_testing st) (heap st) (filterInstalled st)
        (trace st ++ [c]).

(** ** The monad: state, and faults for what is undefined in C++ *)

Inductive Fault := BadPointer | IndexOutOfRange | OutOfFuel.

Inductive Result (A : Type) :=
| Ok (a : A) (st : Application)
| Err (f : Fault).
Arguments Ok {A} a st.
Arguments Err {A} f.

Definition M (A : Type) : Type := Application -> Result A.

Definition ret {A} (a : A) : M A := fun st => Ok a st.
Definition fail {A} (f : Fault) : M A := fun _ => Err f.
Definition bind {A B} (m : M A) (k : A -> M B) : M B :=
  fun st => match m st with
            | Ok a st' => k a st'
            | Err f => Err f
            end.
Definition gets {A} (f : Application -> A) : M A := fun st => Ok (f st) st.
Definition modify (f : Application -> Application) : M unit := fun st => Ok tt (f st).

Declare Scope app_scope.
Delimit Scope app_scope with app.
Notation "x <- m ;; k" := (bind m (fun x => k))
  (at level 100, m at next level, right associativity) : app_scope.
Notation "m ;;; k" := (bind m (fun _ => k))
  (at level 100, right associativity) : app_scope.
Local Open Scope app_scope.

Definition when (b : bool) (m : M unit) : M unit := if b then m else ret tt.
Definition call (c : Call) : M unit := modify (log c).

(** [for (int i = lo; i < hi; ++i) body(i)], for a body that leaves [i] and
    [hi] alone: [hi - lo] rounds. *)
Fixpoint forRounds (rounds : nat) (i : nat) (body : nat -> M unit) : M unit :=
  match rounds with
  | O => ret tt
  | S rounds' => body i ;;; forRounds rounds' (S i) body
  end.
Definition forRange (lo hi : nat) (body : nat -> M unit) : M unit :=
  forRounds (hi - lo)%nat lo body.

(** ** Pointers and lists *)

(** [view->...]: reading through a view pointer. *)
Definition deref (v : ViewPtr) : M QQuickView :=
  fun st => match heap st !! v with
            | Some q => Ok q st
            | None => Err BadPointer
            end.

(** A setter called through a view pointer. *)
Definition update (v : ViewPtr) (f : QQuickView -> QQuickView) : M unit :=
  q <- deref v ;;
  modify (fun st => set_heap (<[v := f q]> (heap st)) st).

Definition setGeometry (v : ViewPtr) (r : QRect) : M unit :=
  update v (fun q => mkView r (screen q) (frameless q) (visibility q)
                            (keyboardGrab q) (viewVisible q)).
Definition setScreen (v : ViewPtr) (s : ScreenPtr) : M unit :=
  update v (fun q => mkView (geometry q) (Some s) (frameless q) (visibility q)
                            (keyboardGrab q) (viewVisible q)).
Definition setFlagsFrameless (v : ViewPtr) : M unit :=
  update v (fun q => mkView (geometry q) (screen q) true (visibility q)
                            (keyboardGrab q) (viewVisible q)).
Definition setVisibility (v : ViewPtr) (vis : Visibility) : M unit :=
  update v (fun q => mkView (geometry q) (screen q) (frameless q) vis
                            (keyboardGrab q) (viewVisible q)).
Definition setKeyboardGrabEnabled (v : ViewPtr) (b : bool) : M unit :=
  update v (fun q => mkView (geometry q) (screen q) (frameless q) (visibility q)
                            b (viewVisible q)).
Definition setViewVisible (v : ViewPtr) (b : bool) : M unit :=
  update v (fun q => mkView (geometry q) (screen q) (frameless q) (visibility q)
                            (keyboardGrab q) b).
(** [setY(y)]: moves the window, the size stays. *)
Definition setY (v : ViewPtr) (y : Z) : M unit :=
  update v (fun q => mkView (mkRect (rx (geometry q)) y (rwidth (geometry q))
                                    (rheight (geometry q)))
                            (screen q) (frameless q) (visibility q)
                            (keyboardGrab q) (viewVisible q)).

(** [QGuiApplication::screens()[i]] *)
Definition screenAt (i : nat) : M ScreenPtr :=
  fun st => match screens (desktop st) !! i with
            | Some s => Ok s st
            | None => Err IndexOutOfRange
            end.

(** [m_views.at(i)] and [m_views[i]] *)
Definition viewAt (i : nat) : M ViewPtr :=
  fun st => match m_views st !! i with
            | Some v => Ok v st
            | None => Err IndexOutOfRange
            end.

(** [m_views.takeLast()] *)
Definition takeLast : M ViewPtr :=
  fun st => match last (m_views st) with
            | Some v => Ok v (set_views (removelast (m_views st)) st)
            | None => Err IndexOutOfRange
            end.

(** [list.indexOf(x)]: the first index of [x], -1 when absent. *)
Fixpoint indexOf_from (i : Z) (l : list positive) (x : positive) : Z :=
  match l with
  | [] => -1
  | y :: l' => if decide (y = x) then i else indexOf_from (i + 1) l' x
  end.
Definition indexOf (l : list positive) (x : positive) : Z := indexOf_from 0 l x.

(** [new QQuickView] followed by create(): a window not yet shown, on the
    primary screen, at an address no live view has.  The QML context
    property, source, resize mode and colour set right after are constants
    of the declarative engine and are not part of the record. *)
Definition newView : M ViewPtr :=
  fun st =>
    let v := fresh (dom (heap st)) in
    let q := mkView (mkRect 0 0 0 0) (primaryScreen (desktop st)) false Hidden
                    false false in
    Ok v (set_heap (<[v := q]> (heap st)) st).

(** [delete view]: the address is live no longer. *)
Definition deleteView (v : ViewPtr) : M unit :=
  _ <- deref v ;;
  modify (fun st => set_heap (delete v (heap st)) st).

(** [for (auto x : l) body(x)] over a list the body does not change. *)
Fixpoint forEach {A} (l : list A) (body : A -> M unit) : M unit :=
  match l with
  | [] => ret tt
  | x :: l' => body x ;;; forEach l' body
  end.

(** [while (cond) body], bounded by [fuel] tests of the condition. *)
Fixpoint while (fuel : nat) (cond : M bool) (body : M unit) : M unit :=
  match fuel with
  | O => fail OutOfFuel
  | S fuel' =>
      c <- cond ;;
      if c then body ;;; while fuel' cond body else ret tt
  end.

(** What the toolkit decides and the controller only observes: whether a
    rectangle contains a point ([QRect::contains]) and what accepted flag a
    receiver's own event handler leaves on an event it is given. *)
Class Toolkit := {
  rect_contains : QRect -> QPoint -> bool;
  receiver_event : QObject -> QEvent -> bool;
}.

(** ** Application's methods *)

Section Controller.
Context {tk : Toolkit}.

(** The constructor: no view yet, the event filter installed on the
    application itself.  [m_testing] comes from the header. *)
Definition Application_new (d : Desktop) (testing : bool) : Application :=
  mkApp d [] testing ∅ true [].

(** The destructor: qDeleteAll(m_views), after the focus workaround that
    reads every view. *)
Definition Application_delete : M unit :=
  vs <- gets m_views ;;
  forEach vs (fun view => _ <- deref view ;; ret tt) ;;;
  forEach vs deleteView.

Definition viewCount : M nat := gets (fun st => length (m_views st)).
Definition screenCount : M nat := gets (fun st => length (screens (desktop st))).

(** The body of the "extend views" loop of [desktopResized]. *)
Definition createView (i : nat) : M unit :=
  view <- newView ;;
  screen <- screenAt i ;;
  geo <- gets (fun st => screenGeometry (desktop st) screen) ;;
  setGeometry view geo ;;;
  testing <- gets m_testing ;;
  when (negb testing) (setFlagsFrameless view) ;;;
  setGeometry view geo ;;;
  call (CConnectFrameSwapped view) ;;;
  modify (fun st => set_views (m_views st ++ [view]) st).

(** The body of the "update geometry" loop of [desktopResized]. *)
Definition showView (i : nat) : M unit :=
  view <- viewAt i ;;
  screen <- screenAt i ;;
  setScreen view screen ;;;
  testing <- gets m_testing ;;
  (if testing then setVisibility view Windowed
   else setVisibility view FullScreen) ;;;
  call (CRaise view).

(** [desktopResized].  Each round of the first loop takes one view away, so
    one test of its guard per view and one more are all it can use. *)
Definition desktopResized : M unit :=
  nScreens <- screenCount ;;
  count <- viewCount ;;
  while (S count)
        (n <- viewCount ;; ret (nScreens <? n)%nat)
        (v <- takeLast ;; call (CDeleteLater v)) ;;;
  count <- viewCount ;;
  forRange count nScreens createView ;;;
  forRange 0 nScreens showView.

Definition initialViewSetup : M unit :=
  ss <- gets (fun st => screens (desktop st)) ;;
  forEach ss (fun s => call (CConnectGeometryChanged s)) ;;;
  desktopResized.

Definition onScreenAdded (s : ScreenPtr) : M unit :=
  call (CConnectGeometryChanged s) ;;;
  desktopResized.

(** The search loop of [onSucceeded]. *)
Fixpoint findMainView (vs : list ViewPtr) : M (option ViewPtr) :=
  match vs with
  | [] => ret None
  | v :: rest =>
      q <- deref v ;;
      primary <- gets (fun st => primaryScreen (desktop st)) ;;
      if decide (screen q = primary) then ret (Some v) else findMainView rest
  end.

Definition onSucceeded : M unit :=
  vs <- gets m_views ;;
  mainView <- findMainView vs ;;
  match mainView with
  | Some mv =>
      q <- deref mv ;;
      let y := ry (geometry q) in
      let h := rheight (geometry q) in
      call (CAnimationStart
              (mkAnimation mv 500 OutSine y (int_add y (int_neg h))))
  | None => call CExit
  end.

(** The two lambdas [onSucceeded] connects to the animation. *)
Definition animation_valueChanged (a : QVariantAnimation) (value : Z) : M unit :=
  setY (ani_target a) value.
Definition animation_finished : M unit := call CExit.

(** The search loop of [getActiveScreen]. *)
Fixpoint findUnderCursor (vs : list ViewPtr) : M (option ViewPtr) :=
  match vs with
  | [] => ret None
  | view :: rest =>
      q <- deref view ;;
      pos <- gets (fun st => cursorPos (desktop st)) ;;
      if rect_contains (geometry q) pos then ret (Some view)
      else findUnderCursor rest
  end.

(** [m_views.first()] *)
Definition firstView : M ViewPtr :=
  fun st => match m_views st with
            | v :: _ => Ok v st
            | [] => Err IndexOutOfRange
            end.

Definition getActiveScreen : M (option ViewPtr) :=
  vs <- gets m_views ;;
  if bool_decide (vs = []) then ret None
  else
    activeScreen <- findUnderCursor vs ;;
    match activeScreen with
    | Some w => ret (Some w)
    | None => w <- firstView ;; ret (Some w)
    end.

Definition getFocus : M unit :=
  activeScreen <- getActiveScreen ;;
  match activeScreen with
  | None => ret tt
  | Some w =>
      vs <- gets m_views ;;
      forEach vs (fun view =>
        testing <- gets m_testing ;;
        when (negb testing) (setKeyboardGrabEnabled view true)) ;;;
      testing <- gets m_testing ;;
      when (negb testing) (setKeyboardGrabEnabled w true) ;;;
      call (CRequestActivate w)
  end.

Definition markViewsAsVisible (view : ViewPtr) : M unit :=
  call (CDisconnectFrameSwapped view) ;;;
  setViewVisible view true ;;;
  call CInvokeQueuedGetFocus.

Definition removeEventFilter : M unit :=
  modify (set_filter false) ;;; call CRemoveEventFilter.
Definition installEventFilter : M unit :=
  modify (set_filter true) ;;; call CInstallEventFilter.

(** The receiver's own handler gets the event and leaves its accepted flag. *)
Definition deliver (receiver : QObject) (e : QEvent) : M QEvent :=
  call (CDeliver receiver e) ;;;
  ret (setAccepted (receiver_event receiver e) e).

Section Dispatch.
(** [QCoreApplication::sendEvent], tied to the filter below by [sendEvent]. *)
Variable send : QObject -> QEvent -> M QEvent.

(** The forwarding loop of [shareEvent]; [accepted0] is the stored state. *)
Fixpoint shareLoop (from : ViewPtr) (accepted0 : bool) (vs : list ViewPtr)
    (e : QEvent) : M QEvent :=
  match vs with
  | [] => ret e
  | view :: rest =>
      if decide (view = from) then shareLoop from accepted0 rest e
      else
        e1 <- send (ObjView view) e ;;
        shareLoop from accepted0 rest (setAccepted accepted0 e1)
  end.

Definition shareEvent (e : QEvent) (from : option ViewPtr) : M QEvent :=
  vs <- gets m_views ;;
  match from with
  | Some f =>
      if bool_decide (f ∈ vs) then
        removeEventFilter ;;;
        e' <- shareLoop f (accepted e) vs e ;;
        installEventFilter ;;;
        ret e'
      else ret e
  | None => ret e
  end.

(** [eventFilter] returns its verdict and the event as the callees left it. *)
Definition eventFilter (obj : QObject) (e : QEvent) : M (bool * QEvent) :=
  if bool_decide (obj ≠ ObjApplication) && bool_decide (kind e = Show) then
    vs <- gets m_views ;;
    let view := find (fun v => bool_decide (ObjView v = obj)) vs in
    ret (false, e)
  else if bool_decide (kind e = MouseButtonPress) then
    a <- getActiveScreen ;;
    match a with
    | Some _ =>
        a' <- getActiveScreen ;;
        match a' with
        | Some w => call (CRequestActivate w)
        | None => fail BadPointer
        end
    | None => ret tt
    end ;;;
    ret (false, e)
  else
    match kind e with
    | KeyPress _ =>
        e' <- shareEvent e (qobject_cast_view obj) ;;
        ret (false, e')
    | KeyRelease key =>
        if bool_decide (key ≠ Key_Escape) then
          e' <- shareEvent e (qobject_cast_view obj) ;;
          ret (false, e')
        else ret (true, e)
    | _ => ret (false, e)
    end.

End Dispatch.

(** [QCoreApplication::sendEvent(receiver, e)]: through the application's
    event filter while it is installed, then to the receiver unless the
    filter consumed the event.  The filter may send events itself, hence the
    fuel. *)
Fixpoint sendEvent (fuel : nat) (receiver : QObject) (e : QEvent) : M QEvent :=
  match fuel with
  | O => fail OutOfFuel
  | S fuel' =>
      filtered <- gets filterInstalled ;;
      call (CSendEvent receiver e filtered) ;;;
      if filtered then
        r <- eventFilter (sendEvent fuel') receiver e ;;
        if r.1 then ret r.2 else deliver receiver r.2
      else deliver receiver e
  end.

Definition screenGeometryChanged (screen : ScreenPtr) (geo : QRect) : M unit :=
  ss <- gets (fun st => screens (desktop st)) ;;
  let screenIndex := indexOf ss screen in
  if screenIndex <? 0 then call (CWarning screenIndex)
  else
    size <- viewCount ;;
    if Z.of_nat size <=? screenIndex then call (CWarning screenIndex)
    else
      view <- viewAt (Z.to_nat screenIndex) ;;
      setGeometry view geo.

End Controller.

(** ** The operations of the program, as the event loop can invoke them *)

Inductive Op :=
| OpDelete
| OpInitialViewSetup
| OpDesktopResized
| OpOnScreenAdded (s : ScreenPtr)
| OpOnSucceeded
| OpAnimationValueChanged (a : QVariantAnimation) (value : Z)
| OpAnimationFinished
| OpGetFocus
| OpMarkViewsAsVisible (v : ViewPtr)
| OpGetActiveScreen
| OpEventFilter (fuel : nat) (obj : QObject) (e : QEvent)
| OpShareEvent (fuel : nat) (e : QEvent) (from : option ViewPtr)
| OpSendEvent (fuel : nat) (receiver : QObject) (e : QEvent)
| OpScreenGeometryChanged (s : ScreenPtr) (geo : QRect).

Definition void {A} (m : M A) : M unit := _ <- m ;; ret tt.

Definition run {tk : Toolkit} (op : Op) : M unit :=
  match op with
  | OpDelete => Application_delete
  | OpInitialViewSetup => initialViewSetup
  | OpDesktopResized => desktopResized
  | OpOnScreenAdded s => onScreenAdded s
  | OpOnSucceeded => onSucceeded
  | OpAnimationValueChanged a value => animation_valueChanged a value
  | OpAnimationFinished => animation_finished
  | OpGetFocus => getFocus
  | OpMarkViewsAsVisible v => markViewsAsVisible v
  | OpGetActiveScreen => void getActiveScreen
  | OpEventFilter fuel obj e => void (eventFilter (sendEvent fuel) obj e)
  | OpShareEvent fuel e from => void (shareEvent (sendEvent fuel) e from)
  | OpSendEvent fuel receiver e => void (sendEvent fuel receiver e)
  | OpScreenGeometryChanged s geo => screenGeometryChanged s geo
  end.

(** ** Invariants and observations used in the statements *)

(** Every pointer of [m_views] is to a live view. *)
Definition views_live (st : Application) : Prop :=
  Forall (fun v => is_Some (heap st !! v)) (m_views st).

(** ... and no view is listed twice. *)
Definition wf (st : Application) : Prop :=
  NoDup (m_views st) ∧ views_live st.

#[global] Instance views_live_dec st : Decision (views_live st).
Proof. unfold views_live. apply _. Defined.
#[global] Instance wf_dec st : Decision (wf st).
Proof. unfold wf. apply _. Defined.

(** The field of a view, read through the heap. *)
Definition view_field {A} (f : QQuickView -> A) (st : Application) (v : ViewPtr)
    : option A :=
  f <$> heap st !! v.

(** The events a receiver's handler was given, in order. *)
Fixpoint deliveries (r : QObject) (tr : list Call) : list QEvent :=
  match tr with
  | [] => []
  | CDeliver r' e :: tr' =>
      if decide (r' = r) then e :: deliveries r tr' else deliveries r tr'
  | _ :: tr' => deliveries r tr'
  end.

(** The sends of a trace: receiver, event, and whether the send went through
    the application's event filter. *)
Fixpoint sends (tr : list Call) : list (QObject * QEvent * bool) :=
  match tr with
  | [] => []
  | CSendEvent r e filtered :: tr' => (r, e, filtered) :: sends tr'
  | _ :: tr' => sends tr'
  end.

(** Whether the geometry of a view contains the cursor. *)
Definition under_cursor {tk : Toolkit} (st : Application) (v : ViewPtr) : bool :=
  match heap st !! v with
  | Some q => rect_contains (geometry q) (cursorPos (desktop st))
  | None => false
  end.

(** All that a step may leave as it found it. *)
Definition same_frame (st st' : Application) : Prop :=
  desktop st' = desktop st /\ m_testing st' = m_testing st /\
  filterInstalled st' = filterInstalled st.

(** The state after the calls [cs] have been recorded. *)
Definition logs (cs : list Call) (st : Application) : Application :=
  mkApp (desktop st) (m_views st) (m_testing st) (heap st) (filterInstalled st)
        (trace st ++ cs).

(** What forwarding [e] from [from] over the views [vs] should leave in the
    trace: one unfiltered send and one delivery of [e] per other view. *)
Definition forwarding (e : QEvent) (from : ViewPtr) (vs : list ViewPtr) : list Call :=
  flat_map (fun v => [CSendEvent (ObjView v) e false; CDeliver (ObjView v) e])
           (filter (fun v => v <> from) vs).

(** The active screen in the specification's words: the first view of
    [m_views] whose geometry contains the cursor, or the first view of
    [m_views] when no view's geometry does. *)
Definition is_active_screen {tk : Toolkit} (st : Application) (w : ViewPtr) : Prop :=
  (exists pre post, m_views st = pre ++ w :: post /\
     Forall (fun u => under_cursor st u = false) pre /\ under_cursor st w = true)
  \/ (Forall (fun u => under_cursor st u = false) (m_views st) /\
      head (m_views st) = Some w).

(** Whether a view is on the primary screen. *)
Definition on_primary (st : Application) (v : ViewPtr) : bool :=
  bool_decide (view_field screen st v = Some (primaryScreen (desktop st))).

(** The main view in the specification's words: the first view of [m_views]
    on the primary screen. *)
Definition is_main_view (st : Application) (mv : ViewPtr) : Prop :=
  exists pre post, m_views st = pre ++ mv :: post /\
    Forall (fun u => on_primary st u = false) pre /\ on_primary st mv = true.

(** A view record after setKeyboardGrabEnabled(true). *)
Definition grabbed (q : QQuickView) : QQuickView :=
  mkView (geometry q) (screen q) (frameless q) (visibility q) true (viewVisible q).

(** A computation whose every completed run relates the state before to the
    state after by [R]. *)
Definition preserves (R : relation Application) {A} (m : M A) : Prop :=
  forall st a st', m st = Ok a st' -> R st st'.

(** No live view disappears and no keyboard grab is given up. *)
Definition grab_kept : relation Application :=
  fun st st' =>
    forall v q, heap st !! v = Some q ->
      exists q', heap st' !! v = Some q' /\
                 (keyboardGrab q = true -> keyboardGrab q' = true).

(** The views listed stay the same, and stay live. *)
Definition views_kept : relation Application :=
  fun st st' =>
    m_views st' = m_views st /\
    forall v, is_Some (heap st !! v) -> is_Some (heap st' !! v).

(** The list of views and the desktop stay the same. *)
Definition shape_kept : relation Application :=
  fun st st' => m_views st' = m_views st /\ desktop st' = desktop st.

(** Whatever is live afterwards was live before, and is as it was. *)
Definition heap_shrinks : relation Application :=
  fun st st' => forall v q, heap st' !! v = Some q -> heap st !! v = Some q.

(** The states the program can be in while it runs: the constructor's, and
    from there any callback that completes; between callbacks the window
    system may change the desktop. *)
Inductive reachable {tk : Toolkit} : Application -> Prop :=
| reachable_new d testing : reachable (Application_new d testing)
| reachable_desktop d st : reachable st -> reachable (set_desktop d st)
| reachable_run op st st' :
    op <> OpDelete -> reachable st -> run op st = Ok tt st' -> reachable st'.

(** The state a computation ends in, if it completes. *)
Definition result_state {A} (r : Result A) : option Application :=
  match r with
  | Ok _ st => Some st
  | Err _ => None
  end.

(** ** A concrete desktop: two screens side by side *)

(** Rectangles of positive size contain the points from their top-left corner
    up to, not including, x + width and y + height; a handler that flips the
    accepted flag it is given. *)
Definition sample_toolkit : Toolkit :=
  {| rect_contains r p :=
       (rx r <=? px p) && (px p <? rx r + rwidth r) &&
       (ry r <=? py p) && (py p <? ry r + rheight r);
     receiver_event _ e := negb (accepted e) |}.

Definition sample_desktop : Desktop :=
  {| screens := [7; 9]%positive;
     primaryScreen := Some 7%positive;
     screenGeometry s := if (s =? 7)%positive then mkRect 0 0 1920 1080
                         else mkRect 1920 0 1280 1024;
     cursorPos := mkPoint 2000 300 |}.

Definition sample_view (s : ScreenPtr) (r : QRect) : QQuickView :=
  mkView r (Some s) true FullScreen false true.

(** Three overlays left from a time with three screens, two screens now. *)
Definition sample_app : Application :=
  {| desktop := sample_desktop;
     m_views := [1; 2; 3]%positive;
     m_testing := false;
     heap := <[1%positive := sample_view 7 (mkRect 0 0 1920 1080)]>
             (<[2%positive := sample_view 9 (mkRect 1920 0 1280 1024)]>
             (<[3%positive := sample_view 11 (mkRect 3200 0 800 600)]> ∅));
     filterInstalled := true;
     trace := [] |}.

(** The application right after its constructor, on the sample desktop. *)
Definition fresh_app : Application := Application_new sample_desktop false.

Definition sample_key : QEvent := mkEvent (KeyPress 65) true.

(** ** Records and relations for the further properties *)

(** The record of a view as the second loop of [desktopResized] leaves it:
    not yet shown, on the primary screen, with the geometry of the screen it
    was made for. *)
Definition created (d : Desktop) (testing : bool) (s : ScreenPtr) : QQuickView :=
  mkView (screenGeometry d s) (primaryScreen d) (negb testing) Hidden false false.

(** The record of a view after a round of the third loop for screen [s]. *)
Definition shown (testing : bool) (s : ScreenPtr) (q : QQuickView) : QQuickView :=
  mkView (geometry q) (Some s) (frameless q)
         (if testing then Windowed else FullScreen)
         (keyboardGrab q) (viewVisible q).

(** Nothing of the views, their list, the desktop or the mode has changed:
    only the trace and the filter flag may differ. *)
Definition views_untouched : relation Application :=
  fun st st' =>
    heap st' = heap st /\ m_views st' = m_views st /\
    desktop st' = desktop st /\ m_testing st' = m_testing st.

(** The filter flag and the mode are as they were. *)
Definition filter_same : relation Application :=
  fun st st' =>
    filterInstalled st' = filterInstalled st /\ m_testing st' = m_testing st.

(** The views handed to deleteLater in a trace. *)
Fixpoint deleted_later (tr : list Call) : list ViewPtr :=
  match tr with
  | [] => []
  | CDeleteLater v :: tr' => v :: deleted_later tr'
  | _ :: tr' => deleted_later tr'
  end.

(** The events the filter shares between the views: key presses, and key
    releases other than that of Escape. *)
Definition shared_kind (k : EventKind) : Prop :=
  match k with
  | KeyPress _ => True
  | KeyRelease key => key <> Key_Escape
  | _ => False
  end.

(** A view record after the QML root's "viewVisible" has been written. *)
Definition made_visible (q : QQuickView) : QQuickView :=
  mkView (geometry q) (screen q) (frameless q) (visibility q) (keyboardGrab q) true.

(** A view record moved to the vertical position [y]. *)
Definition moved_to (y : Z) (q : QQuickView) : QQuickView :=
  mkView (mkRect (rx (geometry q)) y (rwidth (geometry q)) (rheight (geometry q)))
         (screen q) (frameless q) (visibility q) (keyboardGrab q) (viewVisible q).

(** A key release that is not Escape, and the release of Escape. *)
Definition sample_release : QEvent := mkEvent (KeyRelease 65) true.
Definition sample_escape : QEvent := mkEvent (KeyRelease Key_Escape) true.

(** The application once started on the sample desktop: the constructor,
    then [initialViewSetup]. *)
Definition started_app : Application :=
  match initialViewSetup fresh_app with
  | Ok _ st => st
  | Err _ => fresh_app
  end.

(** * Proofs *)

(** ** The sample desktop at work *)

Example int_wraps : int (2 ^ 31) = - 2 ^ 31 /\ int (-1080) = -1080.
Proof. by vm_compute. Qed.

Example indexOf_found : indexOf [7; 9]%positive 9%positive = 1.
Proof. reflexivity. Qed.

Example indexOf_absent : indexOf [7; 9]%positive 11%positive = -1.
Proof. reflexivity. Qed.

(** Three views, two screens: the last view goes. *)
Example desktopResized_shrinks :
  (fun st => (m_views st, trace st)) <$> result_state (desktopResized sample_app)
  = Some ([1; 2]%positive,
          [CDeleteLater 3%positive; CRaise 1%positive; CRaise 2%positive]).
Proof. by vm_compute. Qed.

(** No view, two screens: two views are created. *)
Example desktopResized_grows :
  (fun st => (m_views st, (fun v => view_field screen st v) <$> m_views st))
    <$> result_state (desktopResized fresh_app)
  = Some ([1; 2]%positive, [Some (Some 7%positive); Some (Some 9%positive)]).
Proof. by vm_compute. Qed.

(** The cursor is on the second screen. *)
Example getActiveScreen_sample :
  @getActiveScreen sample_toolkit sample_app = Ok (Some 2%positive) sample_app.
Proof. reflexivity. Qed.

(** A key press on view 2 is shared with views 1 and 3. *)
Example shareEvent_sample :
  trace <$> result_state
    (shareEvent (@sendEvent sample_toolkit 1) sample_key (Some 2%positive) sample_app)
  = Some [CRemoveEventFilter;
          CSendEvent (ObjView 1%positive) sample_key false;
          CDeliver (ObjView 1%positive) sample_key;
          CSendEvent (ObjView 3%positive) sample_key false;
          CDeliver (ObjView 3%positive) sample_key;
          CInstallEventFilter].
Proof. by vm_compute. Qed.

(** The same key press as the toolkit dispatches it: through the filter
    first, which shares it, and then to view 2 itself. *)
Example sendEvent_sample :
  trace <$> result_state
    (@sendEvent sample_toolkit 2 (ObjView 2%positive) sample_key sample_app)
  = Some [CSendEvent (ObjView 2%positive) sample_key true;
          CRemoveEventFilter;
          CSendEvent (ObjView 1%positive) sample_key false;
          CDeliver (ObjView 1%positive) sample_key;
          CSendEvent (ObjView 3%positive) sample_key false;
          CDeliver (ObjView 3%positive) sample_key;
          CInstallEventFilter;
          CDeliver (ObjView 2%positive) sample_key].
Proof. by vm_compute. Qed.

(** The main view of the sample slides up by its height. *)
Example onSucceeded_sample :
  trace <$> result_state (onSucceeded sample_app)
  = Some [CAnimationStart (mkAnimation 1%positive 500 OutSine 0 (-1080))].
Proof. by vm_compute. Qed.

(** ** Running the monad *)

Lemma bind_Ok {A B} (m : M A) (k : A -> M B) st b st2 :
  bind m k st = Ok b st2 <-> exists a st1, m st = Ok a st1 /\ k a st1 = Ok b st2.
Proof.
  unfold bind. split.
  - destruct (m st) as [a st1|f] eqn:E; [eauto | discriminate].
  - intros (a & st1 & -> & Hk). exact Hk.
Qed.

Lemma bind_run {A B} (m : M A) (k : A -> M B) st a st1 :
  m st = Ok a st1 -> bind m k st = k a st1.
Proof. unfold bind. intros ->. reflexivity. Qed.

Lemma deref_Ok v st q : heap st !! v = Some q -> deref v st = Ok q st.
Proof. unfold deref. intros ->. reflexivity. Qed.

Lemma deref_inv v st q st' : deref v st = Ok q st' -> heap st !! v = Some q /\ st' = st.
Proof. unfold deref. destruct (heap st !! v); intros [= <- <-]; auto. Qed.

Lemma update_Ok v f st q :
  heap st !! v = Some q ->
  update v f st = Ok tt (set_heap (<[v := f q]> (heap st)) st).
Proof. intros Hq. unfold update. rewrite (bind_run _ _ _ _ _ (deref_Ok _ _ _ Hq)). reflexivity. Qed.

Lemma update_inv v f st u st' :
  update v f st = Ok u st' ->
  exists q, heap st !! v = Some q /\ st' = set_heap (<[v := f q]> (heap st)) st.
Proof.
  unfold update. intros (q & st1 & Hd & Hm)%bind_Ok.
  apply deref_inv in Hd as [Hq ->]. injection Hm as <-. eauto.
Qed.

(** ** The lists behind [m_views] *)

Lemma last_removelast (l : list positive) v :
  last l = Some v -> l = removelast l ++ [v].
Proof.
  intros (l' & ->)%last_Some. by rewrite removelast_last.
Qed.

Lemma take_removelast (l : list positive) n :
  (n < length l)%nat -> take n (removelast l) = take n l.
Proof.
  intros Hn. destruct (last l) as [v|] eqn:E.
  - apply last_removelast in E. rewrite E at 2.
    rewrite take_app_le; [done|].
    rewrite E, length_app in Hn. simpl in Hn. lia.
  - apply last_None in E. subst. simpl in Hn. lia.
Qed.

(** ** desktopResized, loop by loop *)

Lemma same_frame_refl st : same_frame st st.
Proof. by unfold same_frame. Qed.

Lemma same_frame_trans st1 st2 st3 :
  same_frame st1 st2 -> same_frame st2 st3 -> same_frame st1 st3.
Proof. unfold same_frame. intros (-> & -> & ->) (-> & -> & ->). done. Qed.

(** The first loop stops with the guard false, having taken the surplus
    views from the tail and handed each to deleteLater, last first. *)
Lemma remove_useless_spec nScreens fuel st :
  (length (m_views st) - nScreens < fuel)%nat ->
  exists st',
    while fuel (n <- viewCount ;; ret (nScreens <? n)%nat)
               (v <- takeLast ;; call (CDeleteLater v)) st = Ok tt st' /\
    m_views st' = take nScreens (m_views st) /\
    heap st' = heap st /\
    trace st' = trace st ++ (CDeleteLater <$> reverse (drop nScreens (m_views st))) /\
    same_frame st st'.
Proof.
  revert st. induction fuel as [|fuel IH]; intros st Hfuel; [lia|].
  simpl. unfold bind at 1. unfold bind at 1. unfold viewCount, gets, ret.
  destruct (nScreens <? length (m_views st))%nat eqn:Hn.
  - apply Nat.ltb_lt in Hn.
    destruct (last (m_views st)) as [v|] eqn:Hlast.
    2:{ apply last_None in Hlast. rewrite Hlast in Hn. simpl in Hn. lia. }
    pose proof (last_removelast _ _ Hlast) as Hvs.
    assert (Hlen : length (m_views st) = S (length (removelast (m_views st)))).
    { rewrite Hvs at 1. rewrite length_app. simpl. lia. }
    set (st1 := log (CDeleteLater v) (set_views (removelast (m_views st)) st)).
    destruct (IH st1) as (st' & Hrun & Hviews & Hheap & Htrace & Hframe).
    { simpl. lia. }
    exists st'. split; [|split; [|split; [|split]]].
    + unfold bind at 1. unfold bind at 1. unfold takeLast. rewrite Hlast.
      exact Hrun.
    + rewrite Hviews. simpl. apply take_removelast. lia.
    + rewrite Hheap. reflexivity.
    + rewrite Htrace. simpl. rewrite <- app_assoc. f_equal.
      rewrite Hvs at 2. rewrite drop_app_le by lia.
      rewrite reverse_app. simpl. reflexivity.
    + eapply same_frame_trans; [|exact Hframe]. by unfold same_frame.
  - apply Nat.ltb_ge in Hn.
    exists st. rewrite take_ge, drop_ge by lia.
    simpl. rewrite app_nil_r. auto using same_frame_refl.
Qed.

Lemma fresh_not_live (h : gmap positive QQuickView) : h !! fresh (dom h) = None.
Proof. apply not_elem_of_dom. apply is_fresh. Qed.

(** One round of the second loop: a new live view, at an address that was
    free, appended to [m_views]; every older view is as it was. *)
Lemma createView_spec i s st :
  screens (desktop st) !! i = Some s ->
  exists st' q,
    createView i st = Ok tt st' /\
    m_views st' = m_views st ++ [fresh (dom (heap st))] /\
    heap st' = <[fresh (dom (heap st)) := q]> (heap st) /\
    geometry q = screenGeometry (desktop st) s /\
    keyboardGrab q = false /\
    trace st' = trace st ++ [CConnectFrameSwapped (fresh (dom (heap st)))] /\
    same_frame st st'.
Proof.
  intros Hs. set (v := fresh (dom (heap st))).
  unfold createView, newView, screenAt, setGeometry, setFlagsFrameless.
  unfold bind at 1. fold v. unfold bind at 1. simpl. rewrite Hs.
  unfold bind at 1. unfold gets at 1. simpl.
  unfold bind at 1. erewrite update_Ok by (simpl; apply lookup_insert_eq).
  unfold bind at 1. unfold gets at 1. simpl.
  destruct (m_testing st) eqn:Ht; simpl.
  - unfold bind at 1. unfold ret at 1.
    unfold bind at 1. erewrite update_Ok by (simpl; apply lookup_insert_eq).
    unfold bind, call, modify. simpl.
    eexists _, _. split; [reflexivity|]. simpl.
    rewrite !insert_insert_eq. repeat split; done.
  - unfold bind at 1. erewrite update_Ok by (simpl; apply lookup_insert_eq).
    unfold bind at 1. erewrite update_Ok by (simpl; apply lookup_insert_eq).
    unfold bind, call, modify. simpl.
    eexists _, _. split; [reflexivity|]. simpl.
    rewrite !insert_insert_eq. repeat split; done.
Qed.

Lemma wf_createView st q :
  wf st ->
  wf (mkApp (desktop st) (m_views st ++ [fresh (dom (heap st))]) (m_testing st)
            (<[fresh (dom (heap st)) := q]> (heap st)) (filterInstalled st)
            (trace st)).
Proof.
  intros [Hnd Hlive]. pose proof (fresh_not_live (heap st)) as Hfresh.
  unfold views_live in Hlive. rewrite Forall_forall in Hlive.
  split; simpl.
  - apply NoDup_app. split; [done|]. split; [|apply NoDup_singleton].
    intros w Hw ->%list_elem_of_singleton.
    apply Hlive in Hw as [? Hw]. congruence.
  - unfold views_live. simpl. apply Forall_app. split.
    + apply Forall_forall. intros w Hw.
      destruct (decide (w = fresh (dom (heap st)))) as [->|Hne].
      * rewrite lookup_insert_eq. eauto.
      * rewrite lookup_insert_ne by done. auto.
    + apply Forall_singleton. rewrite lookup_insert_eq. eauto.
Qed.

Lemma wf_ext st st' :
  m_views st' = m_views st -> heap st' = heap st -> wf st -> wf st'.
Proof. unfold wf, views_live. intros -> ->. done. Qed.

(** The second loop: [rounds] new views are appended, none of them an address
    that was live, and the views that were live are untouched.  It needs
    nothing of the state it starts from. *)
Lemma extend_views_spec rounds : forall i st,
  (i + rounds <= length (screens (desktop st)))%nat ->
  exists st' news,
    forRounds rounds i createView st = Ok tt st' /\
    m_views st' = m_views st ++ news /\
    length news = rounds /\
    Forall (fun v => heap st !! v = None) news /\
    (wf st -> wf st') /\
    (forall w, is_Some (heap st !! w) -> heap st' !! w = heap st !! w) /\
    trace st' = trace st ++ (CConnectFrameSwapped <$> news) /\
    same_frame st st'.
Proof.
  induction rounds as [|rounds IH]; intros i st Hle.
  - exists st, []. simpl. rewrite !app_nil_r.
    split; [done|]. split; [done|]. split; [done|]. split; [done|].
    split; [done|]. split; [done|]. split; [done|]. apply same_frame_refl.
  - destruct (lookup_lt_is_Some_2 (screens (desktop st)) i) as [s Hs]; [lia|].
    destruct (createView_spec i s st Hs)
      as (st1 & q & Hrun & Hviews & Hheap & _ & _ & Htrace & Hframe).
    assert (Hwf1 : wf st -> wf st1).
    { intros Hwf. pose proof (wf_createView st q Hwf) as W.
      destruct W as [W1 W2]. unfold wf, views_live in *. simpl in *.
      rewrite Hviews, Hheap. done. }
    destruct (IH (S i) st1)
      as (st' & news & Hrun' & Hviews' & Hlen & Hfresh & Hwf' & Hold & Htrace' & Hframe').
    { destruct Hframe as (-> & _). lia. }
    exists st', (fresh (dom (heap st)) :: news).
    split; [|split; [|split; [|split; [|split; [|split; [|split]]]]]].
    + simpl. rewrite (bind_run _ _ _ _ _ Hrun). exact Hrun'.
    + rewrite Hviews', Hviews, <- app_assoc. reflexivity.
    + simpl. lia.
    + constructor; [apply fresh_not_live|].
      eapply Forall_impl; [exact Hfresh|]. intros w Hw. simpl in Hw.
      rewrite Hheap in Hw. by apply lookup_insert_None in Hw as [? _].
    + auto.
    + intros w [qw Hw]. rewrite Hold.
      * rewrite Hheap. apply lookup_insert_ne. intros <-.
        rewrite fresh_not_live in Hw. discriminate.
      * rewrite Hheap. destruct (decide (fresh (dom (heap st)) = w)) as [->|Hne].
        -- rewrite lookup_insert_eq. eauto.
        -- rewrite lookup_insert_ne by done. eauto.
    + rewrite Htrace', Htrace, <- app_assoc. reflexivity.
    + eapply same_frame_trans; eauto.
Qed.

(** One round of the third loop. *)
Lemma showView_spec i v s q st :
  m_views st !! i = Some v ->
  screens (desktop st) !! i = Some s ->
  heap st !! v = Some q ->
  exists st' q',
    showView i st = Ok tt st' /\
    m_views st' = m_views st /\
    heap st' = <[v := q']> (heap st) /\
    screen q' = Some s /\
    geometry q' = geometry q /\
    keyboardGrab q' = keyboardGrab q /\
    trace st' = trace st ++ [CRaise v] /\
    same_frame st st'.
Proof.
  intros Hv Hs Hq.
  unfold showView, viewAt, screenAt, setScreen, setVisibility.
  unfold bind at 1. rewrite Hv. unfold bind at 1. rewrite Hs.
  unfold bind at 1. erewrite update_Ok by exact Hq.
  unfold bind at 1. unfold gets at 1. simpl.
  destruct (m_testing st) eqn:Ht.
  - unfold bind at 1. erewrite update_Ok by (simpl; apply lookup_insert_eq).
    unfold call, modify. simpl.
    eexists _, _. split; [reflexivity|]. simpl.
    rewrite insert_insert_eq. repeat split; done.
  - unfold bind at 1. erewrite update_Ok by (simpl; apply lookup_insert_eq).
    unfold call, modify. simpl.
    eexists _, _. split; [reflexivity|]. simpl.
    rewrite insert_insert_eq. repeat split; done.
Qed.

Lemma wf_update st st' v q q' :
  heap st !! v = Some q ->
  m_views st' = m_views st ->
  heap st' = <[v := q']> (heap st) ->
  wf st -> wf st'.
Proof.
  intros Hq Hviews Hheap [Hnd Hlive]. unfold wf, views_live in *.
  rewrite Hviews, Hheap. split; [done|].
  eapply Forall_impl; [exact Hlive|]. intros w Hw. simpl in *.
  destruct (decide (v = w)) as [->|Hne].
  - rewrite lookup_insert_eq. eauto.
  - by rewrite lookup_insert_ne.
Qed.

(** The third loop: the views at the indices it visits get the screens at the
    same indices and are raised in turn; no other view changes. *)
Lemma show_views_spec rounds : forall i st,
  wf st ->
  (i + rounds <= length (m_views st))%nat ->
  (i + rounds <= length (screens (desktop st)))%nat ->
  exists st',
    forRounds rounds i showView st = Ok tt st' /\
    m_views st' = m_views st /\
    wf st' /\
    (forall j v s, (i <= j < i + rounds)%nat ->
       m_views st !! j = Some v -> screens (desktop st) !! j = Some s ->
       view_field screen st' v = Some (Some s)) /\
    (forall w, (forall j, (i <= j < i + rounds)%nat -> m_views st !! j <> Some w) ->
       heap st' !! w = heap st !! w) /\
    trace st' = trace st ++ (CRaise <$> take rounds (drop i (m_views st))) /\
    same_frame st st'.
Proof.
  induction rounds as [|rounds IH]; intros i st Hwf Hlv Hls.
  - exists st. simpl. rewrite app_nil_r.
    repeat split; auto using same_frame_refl; try apply Hwf.
    intros; lia.
  - destruct (lookup_lt_is_Some_2 (m_views st) i) as [v Hv]; [lia|].
    destruct (lookup_lt_is_Some_2 (screens (desktop st)) i) as [s Hs]; [lia|].
    assert (Hlive : is_Some (heap st !! v)).
    { destruct Hwf as [_ Hl]. unfold views_live in Hl.
      rewrite Forall_forall in Hl. apply Hl. eapply list_elem_of_lookup_2, Hv. }
    destruct Hlive as [q Hq].
    destruct (showView_spec i v s q st Hv Hs Hq)
      as (st1 & q' & Hrun & Hviews & Hheap & Hscr & _ & _ & Htrace & Hframe).
    assert (Hwf1 : wf st1) by (eapply wf_update; eauto).
    destruct (IH (S i) st1 Hwf1)
      as (st' & Hrun' & Hviews' & Hwf' & Hset & Hkeep & Htrace' & Hframe').
    { rewrite Hviews. lia. }
    { destruct Hframe as (-> & _). lia. }
    exists st'. split; [|split; [|split; [|split; [|split; [|split]]]]].
    + simpl. rewrite (bind_run _ _ _ _ _ Hrun). exact Hrun'.
    + congruence.
    + exact Hwf'.
    + intros j w sj Hj Hw Hsj.
      destruct (decide (j = i)) as [->|Hne].
      * assert (w = v) by congruence. assert (sj = s) by congruence. subst.
        unfold view_field. rewrite Hkeep.
        -- rewrite Hheap, lookup_insert_eq. simpl. by rewrite Hscr.
        -- intros j Hj' Hj''. rewrite Hviews in Hj''.
           destruct Hwf as [Hnd _].
           pose proof (NoDup_lookup _ _ _ _ Hnd Hv Hj''). lia.
      * eapply (Hset j); [lia| |].
        -- by rewrite Hviews.
        -- destruct Hframe as (-> & _). done.
    + intros w Hw. rewrite Hkeep.
      * rewrite Hheap. apply lookup_insert_ne. intros <-.
        apply (Hw i); [lia|done].
      * intros j Hj. rewrite Hviews. apply Hw. lia.
    + rewrite Htrace', Htrace, Hviews, <- app_assoc. f_equal.
      rewrite (drop_S _ _ _ Hv). reflexivity.
    + eapply same_frame_trans; eauto.
Qed.

(** [desktopResized] as a whole, from a well-formed state: it runs to the
    end; the views are the first [nScreens] old ones followed by the new
    ones; what it asks of the toolkit is deleteLater for each surplus view,
    last first, then the connection of each new view, then raise for every
    view; the state stays well formed. *)
Lemma desktopResized_spec st :
  wf st ->
  let nScreens := length (screens (desktop st)) in
  exists st' news,
    desktopResized st = Ok tt st' /\
    wf st' /\
    desktop st' = desktop st /\
    m_views st' = take nScreens (m_views st) ++ news /\
    length news = (nScreens - length (m_views st))%nat /\
    Forall (fun v => heap st !! v = None) news /\
    (forall i v s, m_views st' !! i = Some v -> screens (desktop st) !! i = Some s ->
       view_field screen st' v = Some (Some s)) /\
    trace st' = trace st ++ (CDeleteLater <$> reverse (drop nScreens (m_views st)))
                  ++ (CConnectFrameSwapped <$> news)
                  ++ (CRaise <$> m_views st').
Proof.
  intros Hwf nScreens.
  destruct (remove_useless_spec nScreens (S (length (m_views st))) st)
    as (st1 & Hrun1 & Hviews1 & Hheap1 & Htrace1 & Hframe1); [lia|].
  assert (Hwf1 : wf st1).
  { destruct Hwf as [Hnd Hlive]. unfold wf, views_live in *.
    rewrite Hviews1, Hheap1. split.
    - rewrite <- (take_drop nScreens (m_views st)) in Hnd.
      by apply NoDup_app in Hnd as [? _].
    - by apply Forall_take. }
  assert (Hd1 : desktop st1 = desktop st) by apply Hframe1.
  destruct (extend_views_spec (nScreens - length (m_views st1)) (length (m_views st1)) st1)
    as (st2 & news & Hrun2 & Hviews2 & Hlen2 & Hfresh2 & Hwf2 & _ & Htrace2 & Hframe2).
  { rewrite Hd1. fold nScreens. rewrite Hviews1, length_take. lia. }
  specialize (Hwf2 Hwf1).
  assert (Hd2 : desktop st2 = desktop st).
  { destruct Hframe2 as (-> & _). done. }
  assert (Hcount : length (m_views st2) = nScreens).
  { rewrite Hviews2, length_app, Hlen2, Hviews1, length_take. lia. }
  destruct (show_views_spec nScreens 0 st2 Hwf2)
    as (st3 & Hrun3 & Hviews3 & Hwf3 & Hset & _ & Htrace3 & Hframe3).
  { lia. }
  { rewrite Hd2. fold nScreens. lia. }
  exists st3, news. split; [|split; [|split; [|split; [|split; [|split; [|split]]]]]].
  - unfold desktopResized, screenCount, viewCount.
    unfold bind at 1. unfold gets at 1.
    unfold bind at 1. unfold gets at 1.
    fold nScreens. rewrite (bind_run _ _ _ _ _ Hrun1).
    unfold bind at 1. unfold gets at 1.
    unfold forRange. rewrite (bind_run _ _ _ _ _ Hrun2).
    rewrite Nat.sub_0_r. exact Hrun3.
  - exact Hwf3.
  - destruct Hframe3 as (-> & _). done.
  - by rewrite Hviews3, Hviews2, Hviews1.
  - rewrite Hlen2, Hviews1, length_take. lia.
  - by rewrite Hheap1 in Hfresh2.
  - intros i v s Hv Hs. apply (Hset i); [|by rewrite <- Hviews3|by rewrite Hd2].
    apply lookup_lt_Some in Hs. fold nScreens in Hs. lia.
  - rewrite Htrace3, Htrace2, Htrace1, Hviews3, <- !app_assoc.
    do 3 f_equal. rewrite drop_0, take_ge by lia. reflexivity.
Qed.

(** ** Event forwarding *)

Lemma setAccepted_reset e b : setAccepted (accepted e) (setAccepted b e) = e.
Proof. by destruct e. Qed.

Lemma logs_nil st : logs [] st = st.
Proof. destruct st. unfold logs. simpl. by rewrite app_nil_r. Qed.

Lemma log_logs c cs st : log c (logs cs st) = logs (cs ++ [c]) st.
Proof. unfold log, logs. simpl. by rewrite app_assoc. Qed.

Lemma logs_logs cs1 cs2 st : logs cs2 (logs cs1 st) = logs (cs1 ++ cs2) st.
Proof. unfold logs. simpl. by rewrite app_assoc. Qed.

Section Forwarding.
Context {tk : Toolkit}.

(** With the filter removed, a send is a delivery and nothing else; one unit
    of fuel is all it takes. *)
Lemma sendEvent_unfiltered fuel r e st :
  filterInstalled st = false ->
  sendEvent (S fuel) r e st =
    Ok (setAccepted (receiver_event r e) e)
       (logs [CSendEvent r e false; CDeliver r e] st).
Proof.
  intros Hf. simpl. unfold bind, gets, call, modify, deliver, ret.
  rewrite Hf. simpl. unfold bind, call, modify. simpl.
  f_equal. unfold log, logs. simpl. by rewrite <- app_assoc.
Qed.

(** The loop hands the event, flag as on entry, to each view but [from], and
    returns it with that flag. *)
Lemma shareLoop_unfiltered send from vs :
  (forall r e st, filterInstalled st = false ->
     send r e st = Ok (setAccepted (receiver_event r e) e)
                      (logs [CSendEvent r e false; CDeliver r e] st)) ->
  forall e st,
  filterInstalled st = false ->
  shareLoop send from (accepted e) vs e st =
    Ok e (logs (forwarding e from vs) st).
Proof.
  intros Hsend. induction vs as [|v vs IH]; intros e st Hf.
  - simpl. unfold ret. by rewrite logs_nil.
  - simpl. unfold forwarding. rewrite filter_cons.
    destruct (decide (v = from)) as [->|Hne].
    + rewrite decide_False by (intros ?; done). apply IH, Hf.
    + rewrite decide_True by done.
      rewrite (bind_run _ _ _ _ _ (Hsend _ e st Hf)).
      rewrite setAccepted_reset. rewrite IH by done.
      simpl. by rewrite logs_logs.
Qed.

Lemma shareLoop_spec fuel from vs e st :
  filterInstalled st = false ->
  shareLoop (sendEvent (S fuel)) from (accepted e) vs e st =
    Ok e (logs (forwarding e from vs) st).
Proof.
  apply shareLoop_unfiltered. intros. by apply sendEvent_unfiltered.
Qed.

Lemma shareEvent_forward fuel e f st :
  f ∈ m_views st ->
  shareEvent (sendEvent (S fuel)) e (Some f) st =
    Ok e (set_filter true
            (logs (CRemoveEventFilter :: forwarding e f (m_views st)
                     ++ [CInstallEventFilter]) st)).
Proof.
  intros Hin. unfold shareEvent. unfold bind at 1. unfold gets at 1.
  rewrite bool_decide_eq_true_2 by done.
  unfold removeEventFilter, installEventFilter.
  unfold bind at 1. unfold bind at 1. unfold modify at 1. unfold call at 1.
  unfold modify at 1. unfold bind at 1.
  rewrite shareLoop_spec by done.
  unfold bind, modify, call, ret. simpl. f_equal.
  unfold set_filter, log, logs. simpl. f_equal.
  rewrite <- !app_assoc. reflexivity.
Qed.

Lemma shareEvent_skip send e from st :
  (forall f, from = Some f -> f ∉ m_views st) ->
  shareEvent send e from st = Ok e st.
Proof.
  intros Hno. unfold shareEvent, bind, gets, ret.
  destruct from as [f|]; [|done].
  rewrite bool_decide_eq_false_2; [done|]. by apply Hno.
Qed.

End Forwarding.

Lemma deliveries_forwarding_other e from vs r :
  (forall v, r = ObjView v -> v ∉ vs \/ v = from) ->
  deliveries r (forwarding e from vs) = [].
Proof.
  induction vs as [|v vs IH]; intros Hr; [done|].
  unfold forwarding in *. rewrite filter_cons.
  assert (Hr' : forall w, r = ObjView w -> w ∉ vs \/ w = from).
  { intros w Hw. destruct (Hr w Hw) as [Hn|]; [left|by right].
    intros ?. apply Hn. by right. }
  destruct (decide (v <> from)) as [Hne|Heq]; [|by apply IH].
  simpl. rewrite decide_False; [by apply IH|].
  intros <-. destruct (Hr v eq_refl) as [Hn|]; [|done].
  apply Hn. by left.
Qed.

Lemma deliveries_forwarding_once e from vs v :
  NoDup vs -> v ∈ vs -> v <> from ->
  deliveries (ObjView v) (forwarding e from vs) = [e].
Proof.
  induction vs as [|w vs IH]; intros Hnd Hin Hne; [by apply elem_of_nil in Hin|].
  apply NoDup_cons in Hnd as [Hw Hnd].
  unfold forwarding in *. rewrite filter_cons.
  apply elem_of_cons in Hin as [->|Hin].
  - rewrite decide_True by done. simpl. rewrite decide_True by done.
    f_equal. apply deliveries_forwarding_other.
    intros ? [= <-]. by left.
  - destruct (decide (w <> from)); [|by apply IH].
    simpl. rewrite decide_False; [by apply IH|].
    intros [= ->]. done.
Qed.

Lemma sends_forwarding e from vs :
  sends (forwarding e from vs) =
    (fun v => (ObjView v, e, false)) <$> filter (fun v => v <> from) vs.
Proof.
  unfold forwarding. induction (filter _ vs) as [|v l IH]; [done|].
  simpl. by rewrite IH.
Qed.

Lemma deliveries_app r tr1 tr2 :
  deliveries r (tr1 ++ tr2) = deliveries r tr1 ++ deliveries r tr2.
Proof.
  induction tr1 as [|c tr1 IH]; [done|].
  destruct c; simpl; try done. case_decide; simpl; by rewrite IH.
Qed.

Lemma sends_app tr1 tr2 : sends (tr1 ++ tr2) = sends tr1 ++ sends tr2.
Proof.
  induction tr1 as [|c tr1 IH]; [done|].
  destruct c; simpl; try done. by rewrite IH.
Qed.

(** ** Searching the views *)

(** What a first-match search returns, spelled out. *)
Lemma find_first {A} (f : A -> bool) (l : list A) :
  match find f l with
  | Some x => exists pre post, l = pre ++ x :: post /\
                Forall (fun u => f u = false) pre /\ f x = true
  | None => Forall (fun u => f u = false) l
  end.
Proof.
  induction l as [|a l IH]; simpl; [by constructor|].
  destruct (f a) eqn:Ha.
  - exists [], l. by repeat split.
  - destruct (find f l) as [x|].
    + destruct IH as (pre & post & -> & Hpre & Hx).
      exists (a :: pre), post. repeat split; [|done]. by constructor.
    + by constructor.
Qed.

Section Searching.
Context {tk : Toolkit}.

Lemma findUnderCursor_spec st vs :
  Forall (fun v => is_Some (heap st !! v)) vs ->
  findUnderCursor vs st = Ok (find (under_cursor st) vs) st.
Proof.
  induction 1 as [|v vs [q Hq] _ IH]; [done|].
  simpl. rewrite (bind_run _ _ _ _ _ (deref_Ok _ _ _ Hq)).
  unfold bind at 1. unfold gets at 1. unfold under_cursor at 1. rewrite Hq.
  destruct (rect_contains _ _); [done|]. exact IH.
Qed.

Lemma findMainView_spec st vs :
  Forall (fun v => is_Some (heap st !! v)) vs ->
  findMainView vs st = Ok (find (on_primary st) vs) st.
Proof.
  induction 1 as [|v vs [q Hq] _ IH]; [done|].
  simpl. rewrite (bind_run _ _ _ _ _ (deref_Ok _ _ _ Hq)).
  unfold bind at 1. unfold gets at 1.
  unfold on_primary at 1, view_field. rewrite Hq. simpl.
  destruct (decide (screen q = primaryScreen (desktop st))) as [->|Hne].
  - by rewrite bool_decide_eq_true_2.
  - rewrite bool_decide_eq_false_2 by congruence. exact IH.
Qed.

(** [getActiveScreen] reads the state and leaves it alone; its result is null
    for no views and the active screen otherwise. *)
Lemma getActiveScreen_spec st :
  views_live st ->
  exists r,
    getActiveScreen st = Ok r st /\
    (r = None <-> m_views st = []) /\
    (forall w, r = Some w -> is_active_screen st w).
Proof.
  intros Hlive. unfold getActiveScreen. unfold bind at 1. unfold gets at 1.
  destruct (m_views st) as [|first rest] eqn:Hvs.
  - exists None. rewrite bool_decide_eq_true_2 by done. by repeat split.
  - rewrite bool_decide_eq_false_2 by done.
    unfold views_live in Hlive. rewrite Hvs in Hlive.
    rewrite (bind_run _ _ _ _ _ (findUnderCursor_spec st _ Hlive)).
    pose proof (find_first (under_cursor st) (first :: rest)) as Hfind.
    destruct (find (under_cursor st) (first :: rest)) as [w|].
    + exists (Some w). split; [done|]. split; [by split|].
      intros ? [= <-]. left. by rewrite Hvs.
    + unfold firstView, bind. rewrite Hvs. exists (Some first).
      split; [done|]. split; [by split|].
      intros ? [= <-]. right. by rewrite Hvs.
Qed.

(** What any run of [getActiveScreen] that completes returns, as far as
    being null goes. *)
Lemma getActiveScreen_null_inv st r st' :
  getActiveScreen st = Ok r st' -> (r = None <-> m_views st = []).
Proof.
  unfold getActiveScreen. unfold bind at 1. unfold gets at 1.
  destruct (m_views st) as [|first rest] eqn:Hvs.
  - rewrite bool_decide_eq_true_2 by done. by intros [= <- _].
  - rewrite bool_decide_eq_false_2 by done.
    intros (a & st1 & _ & Hrest)%bind_Ok. destruct a as [w|].
    + injection Hrest as <- _. done.
    + apply bind_Ok in Hrest as (w & st2 & _ & [= <- _]). done.
Qed.

End Searching.

(** ** The event filter *)

Section Filtering.
Context {tk : Toolkit}.

Lemma shareEvent_total fuel e from st :
  exists st', shareEvent (sendEvent (S fuel)) e from st = Ok e st'.
Proof.
  destruct from as [f|].
  - destruct (decide (f ∈ m_views st)) as [Hin|Hout].
    + eexists. by apply shareEvent_forward.
    + exists st. apply shareEvent_skip. by intros ? [= <-].
  - exists st. by apply shareEvent_skip.
Qed.

Lemma eventFilter_mouse send obj e st :
  views_live st ->
  kind e = MouseButtonPress ->
  exists r,
    getActiveScreen st = Ok r st /\
    (r = None <-> m_views st = []) /\
    (forall w, r = Some w -> is_active_screen st w) /\
    eventFilter send obj e st =
      Ok (false, e) (match r with
                     | Some w => log (CRequestActivate w) st
                     | None => st
                     end).
Proof.
  intros Hlive Hk.
  destruct (getActiveScreen_spec st Hlive) as (r & Hrun & Hnull & Hact).
  exists r. repeat split; try apply Hnull; [exact Hrun|exact Hact|].
  unfold eventFilter. rewrite Hk.
  rewrite (bool_decide_eq_false_2 (MouseButtonPress = Show)) by done.
  rewrite andb_false_r. rewrite bool_decide_eq_true_2 by done.
  unfold bind at 1. unfold bind at 1. rewrite Hrun.
  destruct r as [w|]; [|done].
  unfold bind at 1. rewrite Hrun. done.
Qed.

(** The filter's verdict, for every event and every object. *)
Lemma eventFilter_verdict fuel obj e st :
  views_live st ->
  exists e' st',
    eventFilter (sendEvent (S fuel)) obj e st =
      Ok (bool_decide (kind e = KeyRelease Key_Escape), e') st'.
Proof.
  intros Hlive.
  destruct (kind e) as [| |key|key|t] eqn:Hk.
  - rewrite bool_decide_eq_false_2 by done.
    unfold eventFilter. rewrite Hk.
    destruct (bool_decide (obj <> ObjApplication)); simpl.
    + by eexists _, _.
    + by eexists _, _.
  - rewrite bool_decide_eq_false_2 by done.
    destruct (eventFilter_mouse (sendEvent (S fuel)) obj e st Hlive Hk)
      as (r & _ & _ & _ & ->). by eexists _, _.
  - rewrite bool_decide_eq_false_2 by done.
    unfold eventFilter. rewrite Hk.
    rewrite (bool_decide_eq_false_2 (KeyPress key = Show)) by done.
    rewrite andb_false_r.
    rewrite (bool_decide_eq_false_2 (KeyPress key = MouseButtonPress)) by done.
    destruct (shareEvent_total fuel e (qobject_cast_view obj) st) as (st' & Hrun).
    rewrite (bind_run _ _ _ _ _ Hrun). by eexists _, _.
  - unfold eventFilter. rewrite Hk.
    rewrite (bool_decide_eq_false_2 (KeyRelease key = Show)) by done.
    rewrite andb_false_r.
    rewrite (bool_decide_eq_false_2 (KeyRelease key = MouseButtonPress)) by done.
    destruct (decide (key = Key_Escape)) as [->|Hne].
    + rewrite (bool_decide_eq_false_2 (Key_Escape <> Key_Escape)) by auto.
      rewrite bool_decide_eq_true_2 by done. by eexists _, _.
    + rewrite (bool_decide_eq_true_2 (key <> Key_Escape)) by done.
      rewrite bool_decide_eq_false_2 by congruence.
      destruct (shareEvent_total fuel e (qobject_cast_view obj) st) as (st' & Hrun).
      rewrite (bind_run _ _ _ _ _ Hrun). by eexists _, _.
  - rewrite bool_decide_eq_false_2 by done.
    unfold eventFilter. rewrite Hk.
    rewrite (bool_decide_eq_false_2 (OtherEvent t = Show)) by done.
    rewrite andb_false_r.
    rewrite (bool_decide_eq_false_2 (OtherEvent t = MouseButtonPress)) by done.
    by eexists _, _.
Qed.

(** The verdict of any run of the filter that completes, whatever the state
    and whatever sends events for it. *)
Lemma eventFilter_verdict_inv send obj e st b e' st' :
  eventFilter send obj e st = Ok (b, e') st' ->
  b = bool_decide (kind e = KeyRelease Key_Escape).
Proof.
  unfold eventFilter.
  destruct (bool_decide (obj <> ObjApplication) && bool_decide (kind e = Show)) eqn:Hshow.
  { apply andb_true_iff in Hshow as [_ Hk%bool_decide_eq_true].
    intros (vs & st1 & _ & [= <- _ _])%bind_Ok.
    rewrite Hk. by rewrite bool_decide_eq_false_2. }
  destruct (bool_decide (kind e = MouseButtonPress)) eqn:Hmouse.
  { apply bool_decide_eq_true in Hmouse.
    intros (a & st1 & _ & (u & st2 & _ & [= <- _ _])%bind_Ok)%bind_Ok.
    rewrite Hmouse. by rewrite bool_decide_eq_false_2. }
  destruct (kind e) as [| |key|key|t].
  - intros [= <- _ _]. by rewrite bool_decide_eq_false_2.
  - intros [= <- _ _]. by rewrite bool_decide_eq_false_2.
  - intros (e1 & st1 & _ & [= <- _ _])%bind_Ok. by rewrite bool_decide_eq_false_2.
  - destruct (decide (key = Key_Escape)) as [->|Hne].
    + rewrite (bool_decide_eq_false_2 (Key_Escape <> Key_Escape)) by auto.
      intros [= <- _ _]. by rewrite bool_decide_eq_true_2.
    + rewrite (bool_decide_eq_true_2 (key <> Key_Escape)) by done.
      intros (e1 & st1 & _ & [= <- _ _])%bind_Ok.
      rewrite bool_decide_eq_false_2; [done|congruence].
  - intros [= <- _ _]. by rewrite bool_decide_eq_false_2.
Qed.

End Filtering.

(** ** Index of a screen *)

Lemma indexOf_from_spec l x : forall i,
  (indexOf_from i l x = -1 /\ x ∉ l) \/
  (i <= indexOf_from i l x < i + Z.of_nat (length l) /\
   l !! Z.to_nat (indexOf_from i l x - i) = Some x).
Proof.
  induction l as [|y l IH]; intros i; simpl.
  - left. split; [done|]. apply not_elem_of_nil.
  - destruct (decide (y = x)) as [->|Hne].
    + right. split; [lia|]. by rewrite Z.sub_diag.
    + destruct (IH (i + 1)) as [[Hi Hnot]|[Hrange Hlook]].
      * left. split; [done|]. by apply not_elem_of_cons.
      * right. split; [lia|].
        replace (Z.to_nat (indexOf_from (i + 1) l x - i))
          with (S (Z.to_nat (indexOf_from (i + 1) l x - (i + 1)))) by lia.
        done.
Qed.

Lemma indexOf_spec l x :
  (indexOf l x = -1 /\ x ∉ l) \/
  (0 <= indexOf l x < Z.of_nat (length l) /\ l !! Z.to_nat (indexOf l x) = Some x).
Proof.
  unfold indexOf. destruct (indexOf_from_spec l x 0) as [?|[? Hl]]; [by left|right].
  rewrite Z.sub_0_r in Hl. split; [lia|done].
Qed.

(** ** screenGeometryChanged *)

Lemma screenGeometryChanged_warn s geo st :
  let screenIndex := indexOf (screens (desktop st)) s in
  screenIndex < 0 \/ Z.of_nat (length (m_views st)) <= screenIndex ->
  screenGeometryChanged s geo st = Ok tt (log (CWarning screenIndex) st).
Proof.
  intros screenIndex Hbad. unfold screenGeometryChanged.
  unfold bind at 1. unfold gets at 1. fold screenIndex.
  destruct (screenIndex <? 0) eqn:Hneg; [done|].
  apply Z.ltb_ge in Hneg.
  unfold viewCount. unfold bind at 1. unfold gets at 1.
  destruct (Z.of_nat (length (m_views st)) <=? screenIndex) eqn:Hge; [done|].
  apply Z.leb_gt in Hge. lia.
Qed.

Lemma screenGeometryChanged_set s geo st v q :
  let screenIndex := indexOf (screens (desktop st)) s in
  0 <= screenIndex < Z.of_nat (length (m_views st)) ->
  m_views st !! Z.to_nat screenIndex = Some v ->
  heap st !! v = Some q ->
  screenGeometryChanged s geo st =
    Ok tt (set_heap (<[v := mkView geo (screen q) (frameless q) (visibility q)
                                  (keyboardGrab q) (viewVisible q)]> (heap st)) st).
Proof.
  intros screenIndex Hok Hv Hq. unfold screenGeometryChanged.
  unfold bind at 1. unfold gets at 1. fold screenIndex.
  destruct (screenIndex <? 0) eqn:Hneg; [apply Z.ltb_lt in Hneg; lia|].
  unfold viewCount. unfold bind at 1. unfold gets at 1.
  destruct (Z.of_nat (length (m_views st)) <=? screenIndex) eqn:Hge;
    [apply Z.leb_le in Hge; lia|].
  unfold viewAt. unfold bind at 1. rewrite Hv.
  unfold setGeometry. by erewrite update_Ok.
Qed.

(** ** onSucceeded *)

Lemma int_small z : INT_MIN <= z <= INT_MAX -> int z = z.
Proof.
  unfold INT_MIN, INT_MAX, int. intros Hz.
  rewrite Z.mod_small by lia. lia.
Qed.

Lemma int_add_neg y h : int_add y (int_neg h) = int (y - h).
Proof.
  unfold int_add, int_neg, int. f_equal.
  replace (y + ((- h + 2 ^ 31) mod 2 ^ 32 - 2 ^ 31) + 2 ^ 31)
    with (y + (- h + 2 ^ 31) mod 2 ^ 32) by lia.
  rewrite Zplus_mod_idemp_r. f_equal. lia.
Qed.

Lemma find_elem_of {A} (f : A -> bool) (l : list A) x :
  find f l = Some x -> x ∈ l /\ f x = true.
Proof.
  intros H. pose proof (find_first f l) as Hf. rewrite H in Hf.
  destruct Hf as (pre & post & -> & _ & Hx). split; [|done].
  apply elem_of_app. right. by left.
Qed.

Lemma views_live_elem st v :
  views_live st -> v ∈ m_views st -> is_Some (heap st !! v).
Proof. unfold views_live. rewrite Forall_forall. auto. Qed.

(** [onSucceeded] records one call: the start of the slide-out animation of
    the main view, or exit when there is no main view. *)
Lemma onSucceeded_spec st :
  views_live st ->
  onSucceeded st =
    Ok tt (log (match find (on_primary st) (m_views st) with
                | Some mv =>
                    match heap st !! mv with
                    | Some q =>
                        CAnimationStart
                          (mkAnimation mv 500 OutSine (ry (geometry q))
                             (int (ry (geometry q) - rheight (geometry q))))
                    | None => CExit
                    end
                | None => CExit
                end) st).
Proof.
  intros Hlive. unfold onSucceeded. unfold bind at 1. unfold gets at 1.
  rewrite (bind_run _ _ _ _ _ (findMainView_spec st _ Hlive)).
  destruct (find (on_primary st) (m_views st)) as [mv|] eqn:Hfind; [|done].
  apply find_elem_of in Hfind as [Hin _].
  destruct (views_live_elem _ _ Hlive Hin) as [q Hq].
  rewrite (bind_run _ _ _ _ _ (deref_Ok _ _ _ Hq)). rewrite Hq.
  by rewrite int_add_neg.
Qed.

(** ** getFocus *)

Lemma update_alter v f st :
  is_Some (heap st !! v) ->
  update v f st = Ok tt (set_heap (alter f v (heap st)) st).
Proof.
  intros [q Hq]. rewrite (update_Ok _ _ _ _ Hq). by rewrite (alter_alt_Some _ _ _ _ Hq).
Qed.

(** The heap after the grab loop of [getFocus] over [vs]. *)
Lemma grab_loop_spec vs : forall st,
  Forall (fun v => is_Some (heap st !! v)) vs ->
  m_testing st = false ->
  forEach vs (fun view =>
      testing <- gets m_testing ;;
      when (negb testing) (setKeyboardGrabEnabled view true)) st =
    Ok tt (set_heap (foldl (fun h v => alter grabbed v h) (heap st) vs) st).
Proof.
  induction vs as [|v vs IH]; intros st Hlive Ht.
  - simpl. unfold ret. by destruct st.
  - apply Forall_cons in Hlive as [Hv Hlive]. simpl.
    unfold bind at 1. unfold bind at 1. unfold gets at 1. rewrite Ht. simpl.
    unfold setKeyboardGrabEnabled.
    change (fun q => mkView (geometry q) (screen q) (frameless q) (visibility q)
                            true (viewVisible q)) with grabbed.
    rewrite (update_alter _ _ _ Hv). rewrite IH; [done| |done].
    simpl. eapply Forall_impl; [exact Hlive|]. intros w Hw. simpl in *.
    apply lookup_alter_is_Some. exact Hw.
Qed.

Lemma lookup_grab_all vs : forall (h : gmap positive QQuickView) w,
  foldl (fun h v => alter grabbed v h) h vs !! w =
    if decide (w ∈ vs) then grabbed <$> h !! w else h !! w.
Proof.
  induction vs as [|v vs IH]; intros h w; simpl.
  - done.
  - rewrite IH. rewrite lookup_alter.
    destruct (decide (w ∈ v :: vs)) as [Hc|Hc];
      destruct (decide (w ∈ vs)) as [Hin|Hout];
      destruct (decide (v = w)) as [->|Hne]; try done.
    + destruct (h !! w) as [[]|]; done.
    + apply elem_of_cons in Hc as [->|?]; done.
    + exfalso. apply Hc, elem_of_cons. by right.
    + exfalso. apply Hc, elem_of_cons. by right.
    + exfalso. apply Hc, elem_of_cons. by left.
Qed.

Section Focus.
Context {tk : Toolkit}.

Lemma getFocus_spec st :
  views_live st ->
  exists r,
    getActiveScreen st = Ok r st /\
    (r = None <-> m_views st = []) /\
    (forall w, r = Some w -> is_active_screen st w) /\
    getFocus st =
      Ok tt match r with
            | None => st
            | Some w =>
                if m_testing st then log (CRequestActivate w) st
                else log (CRequestActivate w)
                       (set_heap (alter grabbed w
                          (foldl (fun h v => alter grabbed v h) (heap st) (m_views st)))
                          st)
            end.
Proof.
  intros Hlive.
  destruct (getActiveScreen_spec st Hlive) as (r & Hrun & Hnull & Hact).
  exists r. split; [done|]. split; [done|]. split; [done|].
  unfold getFocus. rewrite (bind_run _ _ _ _ _ Hrun).
  destruct r as [w|]; [|done].
  unfold bind at 1. unfold gets at 1.
  destruct (m_testing st) eqn:Ht.
  - assert (Hloop : forall vs s, m_testing s = true ->
      forEach vs (fun view =>
        testing <- gets m_testing ;;
        when (negb testing) (setKeyboardGrabEnabled view true)) s = Ok tt s).
    { induction vs as [|v vs IH]; intros s Hs; [done|].
      simpl. unfold bind at 1. unfold bind at 1. try unfold gets at 1.
      rewrite Hs. simpl. by apply IH. }
    rewrite (bind_run _ _ _ _ _ (Hloop _ _ Ht)).
    unfold bind at 1. unfold gets at 1. rewrite Ht. done.
  - rewrite (bind_run _ _ _ _ _ (grab_loop_spec _ _ Hlive Ht)).
    unfold bind at 1. unfold gets at 1. simpl. rewrite Ht. simpl.
    unfold setKeyboardGrabEnabled.
    change (fun q => mkView (geometry q) (screen q) (frameless q) (visibility q)
                            true (viewVisible q)) with grabbed.
    assert (Hw : w ∈ m_views st).
    { destruct (Hact w eq_refl) as [(pre & post & -> & _)|[_ Hhead]].
      - apply elem_of_app. right. by left.
      - by apply head_Some_elem_of. }
    unfold bind. rewrite update_alter; [done|].
    simpl. rewrite lookup_grab_all.
    rewrite decide_True by done.
    destruct (views_live_elem _ _ Hlive Hw) as [q ->]. by eexists.
Qed.

End Focus.

(** ** What every operation preserves *)

Section Preserving.
Context (R : relation Application) `{!PreOrder R}.

Lemma preserves_ret {A} (a : A) : preserves R (ret a).
Proof. intros st a' st' [= _ <-]. reflexivity. Qed.

Lemma preserves_fail {A} f : preserves R (@fail A f).
Proof. intros st a st' [=]. Qed.

Lemma preserves_gets {A} (f : Application -> A) : preserves R (gets f).
Proof. intros st a st' [= _ <-]. reflexivity. Qed.

Lemma preserves_bind {A B} (m : M A) (k : A -> M B) :
  preserves R m -> (forall a, preserves R (k a)) -> preserves R (bind m k).
Proof.
  intros Hm Hk st b st' (a & st1 & H1 & H2)%bind_Ok.
  transitivity st1; [eapply Hm | eapply Hk]; eauto.
Qed.

Lemma preserves_when b m : preserves R m -> preserves R (when b m).
Proof. destruct b; [done|]. intros _. apply preserves_ret. Qed.

Lemma preserves_void {A} (m : M A) : preserves R m -> preserves R (void m).
Proof. intros. apply preserves_bind; [done|]. intros. apply preserves_ret. Qed.

Lemma preserves_forEach {A} (l : list A) body :
  (forall x, preserves R (body x)) -> preserves R (forEach l body).
Proof.
  intros Hb. induction l as [|x l IH]; simpl.
  - apply preserves_ret.
  - apply preserves_bind; auto.
Qed.

Lemma preserves_forRounds rounds body : forall i,
  (forall j, preserves R (body j)) -> preserves R (forRounds rounds i body).
Proof.
  induction rounds as [|rounds IH]; intros i Hb; simpl.
  - apply preserves_ret.
  - apply preserves_bind; auto.
Qed.

Lemma preserves_while fuel cond body :
  preserves R cond -> preserves R body -> preserves R (while fuel cond body).
Proof.
  intros Hc Hb. induction fuel as [|fuel IH]; simpl.
  - apply preserves_fail.
  - apply preserves_bind; [done|]. intros [|].
    + apply preserves_bind; auto.
    + apply preserves_ret.
Qed.

(** Reads through pointers and indices change nothing. *)
Lemma preserves_deref v : preserves R (deref v).
Proof. intros st q st' [_ ->]%deref_inv. reflexivity. Qed.

Lemma preserves_screenAt i : preserves R (screenAt i).
Proof.
  intros st s st'. unfold screenAt.
  destruct (_ !! i); intros [= _ <-]. reflexivity.
Qed.

Lemma preserves_viewAt i : preserves R (viewAt i).
Proof.
  intros st s st'. unfold viewAt.
  destruct (_ !! i); intros [= _ <-]. reflexivity.
Qed.

Lemma preserves_firstView : preserves R firstView.
Proof.
  intros st s st'. unfold firstView.
  destruct (m_views st); intros [= _ <-]. reflexivity.
Qed.

End Preserving.

#[global] Instance grab_kept_preorder : PreOrder grab_kept.
Proof.
  split.
  - intros st v q Hq. eauto.
  - intros st1 st2 st3 H12 H23 v q Hq.
    destruct (H12 v q Hq) as (q2 & Hq2 & Hg2).
    destruct (H23 v q2 Hq2) as (q3 & Hq3 & Hg3).
    eauto.
Qed.

#[global] Instance views_kept_preorder : PreOrder views_kept.
Proof.
  split.
  - intros st. by split.
  - intros st1 st2 st3 [V12 H12] [V23 H23]. split; [congruence|auto].
Qed.

Lemma grab_kept_same_heap st st' : heap st' = heap st -> grab_kept st st'.
Proof. intros Hh v q Hq. rewrite Hh. eauto. Qed.

Lemma views_kept_same st st' :
  m_views st' = m_views st -> heap st' = heap st -> views_kept st st'.
Proof. intros Hv Hh. split; [done|]. by rewrite Hh. Qed.

Lemma grab_kept_modify f :
  (forall st, heap (f st) = heap st) -> preserves grab_kept (modify f).
Proof. intros Hf st a st' [= _ <-]. by apply grab_kept_same_heap. Qed.

Lemma views_kept_modify f :
  (forall st, heap (f st) = heap st) -> (forall st, m_views (f st) = m_views st) ->
  preserves views_kept (modify f).
Proof. intros Hf Hv st a st' [= _ <-]. by apply views_kept_same. Qed.

Lemma grab_kept_update v f :
  (forall q, keyboardGrab q = true -> keyboardGrab (f q) = true) ->
  preserves grab_kept (update v f).
Proof.
  intros Hf st a st' (q & Hq & ->)%update_inv w qw Hw. simpl.
  destruct (decide (v = w)) as [->|Hne].
  - rewrite lookup_insert_eq. assert (qw = q) as -> by congruence. eauto.
  - rewrite lookup_insert_ne by done. eauto.
Qed.

Lemma views_kept_update v f : preserves views_kept (update v f).
Proof.
  intros st a st' (q & Hq & ->)%update_inv. split; [done|].
  intros w Hw. simpl. destruct (decide (v = w)) as [->|Hne].
  - rewrite lookup_insert_eq. eauto.
  - by rewrite lookup_insert_ne.
Qed.

Lemma grab_kept_newView : preserves grab_kept newView.
Proof.
  intros st a st' [= _ <-] w qw Hw. simpl.
  rewrite lookup_insert_ne; [eauto|].
  intros <-. rewrite fresh_not_live in Hw. done.
Qed.

Lemma grab_kept_takeLast : preserves grab_kept takeLast.
Proof.
  intros st a st'. unfold takeLast. destruct (last _); intros [= _ <-].
  by apply grab_kept_same_heap.
Qed.

#[global] Instance heap_shrinks_preorder : PreOrder heap_shrinks.
Proof.
  split.
  - intros st v q Hq. done.
  - intros st1 st2 st3 H12 H23 v q Hq. auto.
Qed.

Lemma heap_shrinks_deleteView v : preserves heap_shrinks (deleteView v).
Proof.
  intros st a st'. unfold deleteView.
  intros (q & st1 & [_ ->]%deref_inv & [= _ <-])%bind_Ok w qw. simpl.
  intros [_ Hw]%lookup_delete_Some. done.
Qed.

#[global] Instance shape_kept_preorder : PreOrder shape_kept.
Proof.
  split.
  - intros st. by split.
  - intros st1 st2 st3 [V12 D12] [V23 D23]. split; congruence.
Qed.

Lemma shape_kept_modify f :
  (forall st, m_views (f st) = m_views st) -> (forall st, desktop (f st) = desktop st) ->
  preserves shape_kept (modify f).
Proof. intros Hv Hd st a st' [= _ <-]. by split. Qed.

Lemma shape_kept_update v f : preserves shape_kept (update v f).
Proof. intros st a st' (q & Hq & ->)%update_inv. by split. Qed.

(** Decompose a computation into the steps the lemmas above speak of. *)
Ltac preserves_tac :=
  repeat match goal with
  | |- preserves ?R _ =>
    first
      [ apply (preserves_ret R) | apply (preserves_fail R)
      | apply (preserves_gets R) | apply (preserves_deref R)
      | apply (preserves_screenAt R) | apply (preserves_viewAt R)
      | apply (preserves_firstView R)
      | apply grab_kept_newView | apply grab_kept_takeLast
      | apply heap_shrinks_deleteView
      | apply grab_kept_modify; intros; reflexivity
      | apply views_kept_modify; intros; reflexivity
      | apply shape_kept_modify; intros; reflexivity
      | apply grab_kept_update; intros; simpl; done
      | apply views_kept_update | apply shape_kept_update
      | apply (preserves_when R) | apply (preserves_void R)
      | apply (preserves_forEach R); intros
      | apply (preserves_forRounds R); intros
      | apply (preserves_while R)
      | assumption
      | match goal with
        | |- preserves _ (match ?x with _ => _ end) => destruct x
        end
      | apply (preserves_bind R); [|intros] ]
  end.

(** Whatever the state it starts from, a run of [desktopResized] that
    completes leaves as many views as there are screens. *)
Lemma desktopResized_count st st' :
  desktopResized st = Ok tt st' ->
  length (m_views st') = length (screens (desktop st')).
Proof.
  set (nScreens := length (screens (desktop st))).
  destruct (remove_useless_spec nScreens (S (length (m_views st))) st)
    as (st1 & Hrun1 & Hviews1 & _ & _ & Hframe1); [lia|].
  assert (Hd1 : desktop st1 = desktop st) by apply Hframe1.
  destruct (extend_views_spec (nScreens - length (m_views st1)) (length (m_views st1)) st1)
    as (st2 & news & Hrun2 & Hviews2 & Hlen2 & _ & _ & _ & _ & Hframe2).
  { rewrite Hd1. fold nScreens. rewrite Hviews1, length_take. lia. }
  assert (Hd2 : desktop st2 = desktop st).
  { destruct Hframe2 as (-> & _). done. }
  unfold desktopResized, screenCount, viewCount.
  unfold bind at 1. unfold gets at 1.
  unfold bind at 1. unfold gets at 1.
  fold nScreens. rewrite (bind_run _ _ _ _ _ Hrun1).
  unfold bind at 1. unfold gets at 1.
  unfold forRange. rewrite (bind_run _ _ _ _ _ Hrun2).
  intros Hrun3.
  assert (Hshape : preserves shape_kept (forRounds (nScreens - 0) 0 showView)).
  { unfold showView, setScreen, setVisibility. preserves_tac. }
  apply Hshape in Hrun3 as [-> ->].
  rewrite Hd2. fold nScreens.
  rewrite Hviews2, length_app, Hlen2, Hviews1, length_take. lia.
Qed.

Section Operations.
Context {tk : Toolkit}.

Lemma heap_shrinks_delete : preserves heap_shrinks Application_delete.
Proof. unfold Application_delete. preserves_tac. Qed.

Lemma grab_kept_desktopResized : preserves grab_kept desktopResized.
Proof.
  unfold desktopResized, forRange, screenCount, viewCount. preserves_tac.
Qed.

Lemma grab_kept_getActiveScreen : preserves grab_kept getActiveScreen.
Proof.
  unfold getActiveScreen. preserves_tac.
  induction a as [|v vs IH]; simpl; preserves_tac.
Qed.

Lemma views_kept_getActiveScreen : preserves views_kept getActiveScreen.
Proof.
  unfold getActiveScreen. preserves_tac.
  induction a as [|v vs IH]; simpl; preserves_tac.
Qed.

Lemma grab_kept_onSucceeded : preserves grab_kept onSucceeded.
Proof.
  unfold onSucceeded. preserves_tac.
  induction a as [|v vs IH]; simpl; preserves_tac.
Qed.

Lemma views_kept_onSucceeded : preserves views_kept onSucceeded.
Proof.
  unfold onSucceeded. preserves_tac.
  induction a as [|v vs IH]; simpl; preserves_tac.
Qed.

Lemma grab_kept_getFocus : preserves grab_kept getFocus.
Proof.
  unfold getFocus. pose proof grab_kept_getActiveScreen.
  unfold setKeyboardGrabEnabled. preserves_tac.
Qed.

Lemma views_kept_getFocus : preserves views_kept getFocus.
Proof.
  unfold getFocus. pose proof views_kept_getActiveScreen.
  unfold setKeyboardGrabEnabled. preserves_tac.
Qed.

Lemma grab_kept_screenGeometryChanged s geo :
  preserves grab_kept (screenGeometryChanged s geo).
Proof.
  unfold screenGeometryChanged, viewCount, setGeometry. preserves_tac.
Qed.

Lemma views_kept_screenGeometryChanged s geo :
  preserves views_kept (screenGeometryChanged s geo).
Proof.
  unfold screenGeometryChanged, viewCount, setGeometry. preserves_tac.
Qed.

Lemma grab_kept_markViewsAsVisible v : preserves grab_kept (markViewsAsVisible v).
Proof. unfold markViewsAsVisible, setViewVisible. preserves_tac. Qed.

Lemma views_kept_markViewsAsVisible v : preserves views_kept (markViewsAsVisible v).
Proof. unfold markViewsAsVisible, setViewVisible. preserves_tac. Qed.

Section Dispatching.
Context (R : relation Application) `{!PreOrder R}.
Hypothesis R_getActiveScreen : preserves R getActiveScreen.
Hypothesis R_modify_filter : forall b, preserves R (modify (set_filter b)).
Hypothesis R_call : forall c, preserves R (call c).

Lemma preserves_shareLoop send from a0 vs :
  (forall r e, preserves R (send r e)) ->
  forall e, preserves R (shareLoop send from a0 vs e).
Proof.
  intros Hsend. induction vs as [|v vs IH]; intros e; simpl.
  - apply (preserves_ret R).
  - destruct (decide (v = from)); [apply IH|].
    apply (preserves_bind R); [apply Hsend|]. intros. apply IH.
Qed.

Lemma preserves_shareEvent send e from :
  (forall r e, preserves R (send r e)) ->
  preserves R (shareEvent send e from).
Proof.
  intros Hsend. pose proof (preserves_shareLoop send) as Hloop.
  unfold shareEvent, removeEventFilter, installEventFilter.
  apply (preserves_bind R); [apply (preserves_gets R)|]. intros vs.
  destruct from as [f|]; [|apply (preserves_ret R)].
  destruct (bool_decide (f ∈ vs)); [|apply (preserves_ret R)].
  repeat first [ apply (preserves_ret R) | apply R_modify_filter | apply R_call
               | apply Hloop; assumption
               | apply (preserves_bind R); [|intros] ].
Qed.

Lemma preserves_eventFilter send obj e :
  (forall r e, preserves R (send r e)) ->
  preserves R (eventFilter send obj e).
Proof.
  intros Hsend. pose proof (preserves_shareEvent send) as Hshare.
  unfold eventFilter.
  destruct (bool_decide (obj <> ObjApplication) && bool_decide (kind e = Show)).
  { apply (preserves_bind R); [apply (preserves_gets R)|]. intros. apply (preserves_ret R). }
  destruct (bool_decide (kind e = MouseButtonPress)).
  { apply (preserves_bind R); [done|]. intros [w|].
    - apply (preserves_bind R); [|intros; apply (preserves_ret R)].
      apply (preserves_bind R); [done|].
      intros [w'|]; [apply R_call|apply (preserves_fail R)].
    - apply (preserves_bind R); intros; apply (preserves_ret R). }
  destruct (kind e) as [| |key|key|t]; try apply (preserves_ret R).
  - apply (preserves_bind R); [by apply Hshare|]. intros. apply (preserves_ret R).
  - destruct (bool_decide (key <> Key_Escape)); [|apply (preserves_ret R)].
    apply (preserves_bind R); [by apply Hshare|]. intros. apply (preserves_ret R).
Qed.

Lemma preserves_sendEvent fuel : forall r e, preserves R (sendEvent fuel r e).
Proof.
  induction fuel as [|fuel IH]; intros r e; simpl.
  - apply (preserves_fail R).
  - apply (preserves_bind R); [apply (preserves_gets R)|]. intros filtered.
    apply (preserves_bind R); [apply R_call|]. intros _.
    assert (Hdeliver : forall r e, preserves R (deliver r e)).
    { intros. unfold deliver. apply (preserves_bind R); [apply R_call|].
      intros. apply (preserves_ret R). }
    destruct filtered; [|apply Hdeliver].
    apply (preserves_bind R); [by apply preserves_eventFilter|].
    intros [[|] e']; simpl; [apply (preserves_ret R)|apply Hdeliver].
Qed.

End Dispatching.

End Operations.

(** ** Every operation, one by one *)

Lemma wf_views_kept st st' : wf st -> views_kept st st' -> wf st'.
Proof.
  intros [Hnd Hlive] [Hviews Hheap]. unfold wf, views_live in *.
  rewrite Hviews. split; [done|].
  eapply Forall_impl; [exact Hlive|]. auto.
Qed.

Lemma wf_desktopResized st st' : wf st -> desktopResized st = Ok tt st' -> wf st'.
Proof.
  intros Hwf Hrun.
  destruct (desktopResized_spec st Hwf) as (st2 & news & Hrun2 & Hwf2 & _).
  congruence.
Qed.

Lemma views_kept_call c : preserves views_kept (call c).
Proof. by apply views_kept_modify. Qed.

Lemma grab_kept_call c : preserves grab_kept (call c).
Proof. by apply grab_kept_modify. Qed.

Section Running.
Context {tk : Toolkit}.

Lemma grab_kept_sendEvent fuel r e : preserves grab_kept (sendEvent fuel r e).
Proof.
  apply (preserves_sendEvent grab_kept).
  - apply grab_kept_getActiveScreen.
  - intros. by apply grab_kept_modify.
  - apply grab_kept_call.
Qed.

Lemma views_kept_sendEvent fuel r e : preserves views_kept (sendEvent fuel r e).
Proof.
  apply (preserves_sendEvent views_kept).
  - apply views_kept_getActiveScreen.
  - intros. by apply views_kept_modify.
  - apply views_kept_call.
Qed.

Lemma grab_kept_run op : op <> OpDelete -> preserves grab_kept (run op).
Proof.
  intros Hop. destruct op; simpl; try done.
  - unfold initialViewSetup. pose proof grab_kept_desktopResized. preserves_tac.
  - apply grab_kept_desktopResized.
  - unfold onScreenAdded. pose proof grab_kept_desktopResized. preserves_tac.
  - apply grab_kept_onSucceeded.
  - unfold animation_valueChanged, setY. preserves_tac.
  - apply grab_kept_call.
  - apply grab_kept_getFocus.
  - apply grab_kept_markViewsAsVisible.
  - apply (preserves_void grab_kept), grab_kept_getActiveScreen.
  - apply (preserves_void grab_kept), (preserves_eventFilter grab_kept).
    + apply grab_kept_getActiveScreen.
    + intros. by apply grab_kept_modify.
    + apply grab_kept_call.
    + apply grab_kept_sendEvent.
  - apply (preserves_void grab_kept), (preserves_shareEvent grab_kept).
    + intros. by apply grab_kept_modify.
    + apply grab_kept_call.
    + apply grab_kept_sendEvent.
  - apply (preserves_void grab_kept), grab_kept_sendEvent.
  - apply grab_kept_screenGeometryChanged.
Qed.

(** No operation turns the keyboard grab of a view off. *)
Lemma no_release op st st' v :
  run op st = Ok tt st' ->
  view_field keyboardGrab st v = Some true ->
  view_field keyboardGrab st' v <> Some false.
Proof.
  intros Hrun Hgrab. unfold view_field in *.
  destruct (heap st !! v) as [q|] eqn:Hq; [|done].
  simpl in Hgrab. injection Hgrab as Hgrab.
  assert (op = OpDelete \/ op <> OpDelete) as [->|Hop]
    by (destruct op; (by left) || (by right)).
  - apply heap_shrinks_delete in Hrun.
    destruct (heap st' !! v) as [q'|] eqn:Hq'; [|done].
    apply Hrun in Hq'. simpl. congruence.
  - apply (grab_kept_run op Hop) in Hrun.
    destruct (Hrun v q Hq) as (q' & -> & Hg). simpl.
    rewrite (Hg Hgrab). done.
Qed.

Lemma wf_run op st st' : op <> OpDelete -> wf st -> run op st = Ok tt st' -> wf st'.
Proof.
  intros Hop Hwf. destruct op; simpl; try done.
  - unfold initialViewSetup.
    intros (ss & st1 & [= _ <-] & (u & st2 & Hcalls & Hrun)%bind_Ok)%bind_Ok.
    eapply wf_desktopResized; [|exact Hrun].
    eapply wf_views_kept; [exact Hwf|].
    eapply (preserves_forEach views_kept); [|exact Hcalls].
    intros. apply views_kept_call.
  - by apply wf_desktopResized.
  - unfold onScreenAdded. intros (u & st1 & Hcall & Hrun)%bind_Ok.
    eapply wf_desktopResized; [|exact Hrun].
    eapply wf_views_kept; [exact Hwf|]. eapply views_kept_call, Hcall.
  - intros H. eapply wf_views_kept; [exact Hwf|]. eapply views_kept_onSucceeded, H.
  - intros H. eapply wf_views_kept; [exact Hwf|].
    eapply views_kept_update, H.
  - intros H. eapply wf_views_kept; [exact Hwf|]. eapply views_kept_call, H.
  - intros H. eapply wf_views_kept; [exact Hwf|]. eapply views_kept_getFocus, H.
  - intros H. eapply wf_views_kept; [exact Hwf|].
    eapply views_kept_markViewsAsVisible, H.
  - intros H. eapply wf_views_kept; [exact Hwf|].
    eapply (preserves_void views_kept), H. apply views_kept_getActiveScreen.
  - intros H. eapply wf_views_kept; [exact Hwf|].
    eapply (preserves_void views_kept), H.
    apply (preserves_eventFilter views_kept).
    + apply views_kept_getActiveScreen.
    + intros. by apply views_kept_modify.
    + apply views_kept_call.
    + apply views_kept_sendEvent.
  - intros H. eapply wf_views_kept; [exact Hwf|].
    eapply (preserves_void views_kept), H.
    apply (preserves_shareEvent views_kept).
    + intros. by apply views_kept_modify.
    + apply views_kept_call.
    + apply views_kept_sendEvent.
  - intros H. eapply wf_views_kept; [exact Hwf|].
    eapply (preserves_void views_kept), H. apply views_kept_sendEvent.
  - intros H. eapply wf_views_kept; [exact Hwf|].
    eapply views_kept_screenGeometryChanged, H.
Qed.

(** Every state the program reaches is well formed. *)
Lemma reachable_wf st : reachable st -> wf st.
Proof.
  induction 1 as [d testing|d st _ IH|op st st' Hop _ IH Hrun].
  - split; [apply NoDup_nil_2|]. by apply Forall_nil.
  - exact IH.
  - eapply wf_run; eauto.
Qed.

End Running.

Lemma find_first_unique {A} (f : A -> bool) pre x post :
  Forall (fun u => f u = false) pre -> f x = true ->
  find f (pre ++ x :: post) = Some x.
Proof.
  induction 1 as [|u pre Hu _ IH]; intros Hx; simpl.
  - by rewrite Hx.
  - rewrite Hu. by apply IH.
Qed.

Lemma find_none_all {A} (f : A -> bool) l :
  Forall (fun u => f u = false) l -> find f l = None.
Proof. induction 1 as [|u l Hu _ IH]; simpl; [done|]. by rewrite Hu. Qed.

(** * The properties of the controller *)

(** C1. After every completed run of [desktopResized], whatever the state
    it started from, [m_views] has as many views as there are connected
    screens.  From a well-formed state the run does complete: the first
    [nScreens] old views stay, the surplus ones (the tail) are handed to
    deleteLater, as many new live views are created as screens were missing
    one, and the state stays well formed. *)
Theorem desktopResized_one_view_per_screen st :
  (forall st', desktopResized st = Ok tt st' ->
     length (m_views st') = length (screens (desktop st'))) /\
  (wf st ->
   let nScreens := length (screens (desktop st)) in
   exists st' news,
     desktopResized st = Ok tt st' /\
     length (m_views st') = length (screens (desktop st')) /\
     m_views st' = take nScreens (m_views st) ++ news /\
     length news = (nScreens - length (m_views st))%nat /\
     Forall (fun v => heap st !! v = None /\ is_Some (heap st' !! v)) news /\
     trace st' = trace st ++ (CDeleteLater <$> reverse (drop nScreens (m_views st)))
                   ++ (CConnectFrameSwapped <$> news)
                   ++ (CRaise <$> m_views st') /\
     wf st').
Proof.
  split; [intros st'; apply desktopResized_count|].
  intros Hwf nScreens.
  destruct (desktopResized_spec st Hwf)
    as (st' & news & Hrun & Hwf' & Hd & Hviews & Hlen & Hfresh & _ & Htrace).
  exists st', news. fold nScreens in Hviews, Hlen, Htrace.
  split; [done|]. split; [|split; [done|split; [done|split; [|split; done]]]].
  - by apply (desktopResized_count st).
  - apply Forall_forall. intros v Hv. split.
    + rewrite Forall_forall in Hfresh. by apply Hfresh.
    + apply views_live_elem; [apply Hwf'|].
      rewrite Hviews. apply elem_of_app. by right.
Qed.

Lemma desktopResized_one_view_per_screen_witness :
  wf sample_app /\
  exists st' news,
    desktopResized sample_app = Ok tt st' /\
    length (m_views st') = length (screens (desktop st')) /\
    m_views st' = take 2 (m_views sample_app) ++ news /\
    length news = (2 - length (m_views sample_app))%nat /\
    Forall (fun v => heap sample_app !! v = None /\ is_Some (heap st' !! v)) news /\
    trace st' = trace sample_app
                  ++ (CDeleteLater <$> reverse (drop 2 (m_views sample_app)))
                  ++ (CConnectFrameSwapped <$> news)
                  ++ (CRaise <$> m_views st') /\
    wf st'.
Proof.
  assert (H : wf sample_app) by (apply (bool_decide_unpack _); vm_compute; reflexivity).
  split; [exact H|].
  exact (proj2 (desktopResized_one_view_per_screen sample_app) H).
Defined.

(** C2. Screens map to views by position: after [desktopResized], for every
    index [i] below the screen count the view at index [i] of [m_views] is on
    the screen at index [i] of screens(); a view that was at an index below
    the screen count is still at that index, and when there are no more
    screens than views what is left is exactly the first [nScreens] views. *)
Theorem desktopResized_positional st :
  wf st ->
  let nScreens := length (screens (desktop st)) in
  exists st',
    desktopResized st = Ok tt st' /\
    (forall i s, screens (desktop st) !! i = Some s ->
       exists v, m_views st' !! i = Some v /\
                 view_field screen st' v = Some (Some s)) /\
    (forall i v, (i < nScreens)%nat -> m_views st !! i = Some v ->
       m_views st' !! i = Some v) /\
    ((nScreens <= length (m_views st))%nat ->
       m_views st' = take nScreens (m_views st)).
Proof.
  intros Hwf nScreens.
  destruct (desktopResized_spec st Hwf)
    as (st' & news & Hrun & Hwf' & Hd & Hviews & Hlen & _ & Hset & _).
  fold nScreens in Hviews, Hlen.
  exists st'. split; [done|]. split; [|split].
  - intros i s Hs.
    destruct (lookup_lt_is_Some_2 (m_views st') i) as [v Hv].
    { rewrite Hviews, length_app, Hlen, length_take.
      apply lookup_lt_Some in Hs. fold nScreens in Hs. lia. }
    exists v. split; [done|]. by apply (Hset i).
  - intros i v Hi Hv. rewrite Hviews.
    rewrite lookup_app_l.
    + by rewrite lookup_take_lt.
    + rewrite length_take. apply lookup_lt_Some in Hv. lia.
  - intros Hle. rewrite Hviews.
    assert (news = []) as -> by (apply length_zero_iff_nil; lia).
    by rewrite app_nil_r.
Qed.

Lemma desktopResized_positional_witness :
  wf sample_app /\
  exists st',
    desktopResized sample_app = Ok tt st' /\
    (forall i s, screens (desktop sample_app) !! i = Some s ->
       exists v, m_views st' !! i = Some v /\
                 view_field screen st' v = Some (Some s)) /\
    (forall i v, (i < 2)%nat -> m_views sample_app !! i = Some v ->
       m_views st' !! i = Some v) /\
    ((2 <= length (m_views sample_app))%nat ->
       m_views st' = take 2 (m_views sample_app)).
Proof.
  assert (H : wf sample_app) by (apply (bool_decide_unpack _); vm_compute; reflexivity).
  split; [exact H|]. exact (desktopResized_positional sample_app H).
Defined.

(** C3. [shareEvent] hands the event to every view of [m_views] other than
    [from]: the handler of each such view is given the event exactly once,
    with the accepted flag the event had on entry, and the event comes back
    with that flag; the handler of [from] and of every object that is not a
    listed view is given nothing.  When [from] is null or is not in
    [m_views], nothing at all happens. *)
Theorem shareEvent_forwards_once {tk : Toolkit} fuel e from st :
  NoDup (m_views st) ->
  exists st' ext,
    shareEvent (sendEvent (S fuel)) e from st = Ok e st' /\
    trace st' = trace st ++ ext /\
    m_views st' = m_views st /\ heap st' = heap st /\
    (forall f, from = Some f -> f ∈ m_views st ->
       (forall v, v ∈ m_views st -> v <> f -> deliveries (ObjView v) ext = [e]) /\
       deliveries (ObjView f) ext = [] /\
       (forall r, (forall v, r = ObjView v -> v ∉ m_views st) -> deliveries r ext = []) /\
       sends ext = (fun v => (ObjView v, e, false)) <$>
                     filter (fun v => v <> f) (m_views st)) /\
    ((forall f, from = Some f -> f ∉ m_views st) -> ext = [] /\ st' = st).
Proof.
  intros Hnd.
  assert (Hcases : (exists f, from = Some f /\ f ∈ m_views st) \/
                   (forall f, from = Some f -> f ∉ m_views st)).
  { destruct from as [f|]; [|by right].
    destruct (decide (f ∈ m_views st)); [left; eauto|right].
    by intros ? [= <-]. }
  destruct Hcases as [(f & -> & Hin)|Hskip].
  - eexists _, _. split; [by apply shareEvent_forward|].
    split; [reflexivity|]. split; [done|]. split; [done|]. split.
    + intros ? [= <-] _.
      assert (Hd : forall r,
        deliveries r (CRemoveEventFilter :: forwarding e f (m_views st)
                        ++ [CInstallEventFilter]) =
        deliveries r (forwarding e f (m_views st))).
      { intros r. simpl. rewrite deliveries_app. simpl. by rewrite app_nil_r. }
      split; [|split; [|split]].
      * intros v Hv Hne. rewrite Hd. by apply deliveries_forwarding_once.
      * rewrite Hd. apply deliveries_forwarding_other. intros ? [= <-]. by right.
      * intros r Hr. rewrite Hd. apply deliveries_forwarding_other.
        intros v Hv. left. by apply Hr.
      * simpl. rewrite sends_app. simpl. rewrite app_nil_r.
        apply sends_forwarding.
    + intros Hno. exfalso. by apply (Hno f).
  - exists st, []. split; [by apply shareEvent_skip|].
    split; [by rewrite app_nil_r|]. split; [done|]. split; [done|]. split; [|done].
    intros f Hf Hin. exfalso. by apply (Hskip f).
Qed.

Lemma shareEvent_forwards_once_witness :
  NoDup (m_views sample_app) /\
  exists st' ext,
    shareEvent (@sendEvent sample_toolkit 1) sample_key (Some 2%positive) sample_app
      = Ok sample_key st' /\
    trace st' = trace sample_app ++ ext /\
    m_views st' = m_views sample_app /\ heap st' = heap sample_app /\
    (forall f, Some 2%positive = Some f -> f ∈ m_views sample_app ->
       (forall v, v ∈ m_views sample_app -> v <> f ->
          deliveries (ObjView v) ext = [sample_key]) /\
       deliveries (ObjView f) ext = [] /\
       (forall r, (forall v, r = ObjView v -> v ∉ m_views sample_app) ->
          deliveries r ext = []) /\
       sends ext = (fun v => (ObjView v, sample_key, false)) <$>
                     filter (fun v => v <> f) (m_views sample_app)) /\
    ((forall f, Some 2%positive = Some f -> f ∉ m_views sample_app) ->
       ext = [] /\ st' = sample_app).
Proof.
  assert (H : NoDup (m_views sample_app))
    by (apply (bool_decide_unpack _); vm_compute; reflexivity).
  split; [exact H|].
  exact (@shareEvent_forwards_once sample_toolkit 0 sample_key (Some 2%positive)
           sample_app H).
Defined.

(** C4. Recursion is suppressed.  Whatever the state, [shareEvent] returns,
    and every send it makes finds the application's event filter not
    installed: when it forwards, the trace it leaves is removeEventFilter,
    then the unfiltered sends and their deliveries, then installEventFilter,
    and the filter is installed on exit; a single level of dispatch is all
    the forwarding ever uses, so no forwarded event is forwarded again.  When
    it does not forward it changes nothing, so a filter installed on entry is
    installed on exit in every case. *)
Theorem shareEvent_no_recursion {tk : Toolkit} fuel e from st :
  exists st' ext,
    shareEvent (sendEvent (S fuel)) e from st = Ok e st' /\
    shareEvent (sendEvent 1) e from st = Ok e st' /\
    trace st' = trace st ++ ext /\
    Forall (fun s => s.2 = false) (sends ext) /\
    (forall f, from = Some f -> f ∈ m_views st ->
       ext = CRemoveEventFilter :: forwarding e f (m_views st)
               ++ [CInstallEventFilter] /\
       filterInstalled st' = true) /\
    ((forall f, from = Some f -> f ∉ m_views st) -> st' = st) /\
    (filterInstalled st = true -> filterInstalled st' = true).
Proof.
  assert (Hcases : (exists f, from = Some f /\ f ∈ m_views st) \/
                   (forall f, from = Some f -> f ∉ m_views st)).
  { destruct from as [f|]; [|by right].
    destruct (decide (f ∈ m_views st)); [left; eauto|right].
    by intros ? [= <-]. }
  destruct Hcases as [(f & -> & Hin)|Hskip].
  - eexists _, _. split; [by apply shareEvent_forward|].
    split; [by apply shareEvent_forward|].
    split; [reflexivity|]. split; [|split; [|split]].
    + simpl. rewrite sends_app, sends_forwarding. simpl. rewrite app_nil_r.
      apply Forall_fmap, Forall_forall. done.
    + intros ? [= <-] _. done.
    + intros Hno. exfalso. by apply (Hno f).
    + done.
  - exists st, []. split; [by apply shareEvent_skip|].
    split; [by apply shareEvent_skip|].
    split; [by rewrite app_nil_r|]. split; [by constructor|].
    split; [|done].
    intros f Hf Hin. exfalso. by apply (Hskip f).
Qed.

(** C5. [screenGeometryChanged] is guarded: from a state whose views are
    live it returns; when the screen is not in screens() (index below 0) or
    its index is not below the number of views, it records a warning and
    changes neither the views nor any view's record; otherwise the view at
    that index gets the new rectangle as its geometry, keeps its other
    fields, and every other view is as it was. *)
Theorem screenGeometryChanged_guarded s geo st :
  views_live st ->
  let screenIndex := indexOf (screens (desktop st)) s in
  exists st',
    screenGeometryChanged s geo st = Ok tt st' /\
    m_views st' = m_views st /\
    (screenIndex < 0 <-> s ∉ screens (desktop st)) /\
    (screenIndex < 0 \/ Z.of_nat (length (m_views st)) <= screenIndex ->
       heap st' = heap st /\ trace st' = trace st ++ [CWarning screenIndex]) /\
    (0 <= screenIndex < Z.of_nat (length (m_views st)) ->
       exists v q,
         m_views st !! Z.to_nat screenIndex = Some v /\
         screens (desktop st) !! Z.to_nat screenIndex = Some s /\
         heap st !! v = Some q /\
         heap st' !! v = Some (mkView geo (screen q) (frameless q) (visibility q)
                                      (keyboardGrab q) (viewVisible q)) /\
         (forall w, w <> v -> heap st' !! w = heap st !! w) /\
         trace st' = trace st).
Proof.
  intros Hlive screenIndex.
  assert (Hfound : screenIndex < 0 <-> s ∉ screens (desktop st)).
  { destruct (indexOf_spec (screens (desktop st)) s) as [[Hi Hn]|[Hi Hl]];
      fold screenIndex in Hi.
    - split; [done|lia].
    - split; [lia|]. intros Hn. exfalso. apply Hn.
      eapply list_elem_of_lookup_2, Hl. }
  destruct (decide (screenIndex < 0 \/ Z.of_nat (length (m_views st)) <= screenIndex))
    as [Hbad|Hok].
  - exists (log (CWarning screenIndex) st).
    split; [by apply screenGeometryChanged_warn|].
    split; [done|]. split; [done|]. split; [done|]. lia.
  - assert (Hrange : 0 <= screenIndex < Z.of_nat (length (m_views st))) by lia.
    destruct (lookup_lt_is_Some_2 (m_views st) (Z.to_nat screenIndex)) as [v Hv]; [lia|].
    destruct (views_live_elem st v Hlive) as [q Hq].
    { eapply list_elem_of_lookup_2, Hv. }
    eexists. split; [by eapply screenGeometryChanged_set|].
    split; [done|]. split; [done|]. split; [intros; lia|].
    intros _. exists v, q. split; [done|]. split.
    { destruct (indexOf_spec (screens (desktop st)) s) as [[Hi _]|[_ Hl]];
        [fold screenIndex in Hi; lia|exact Hl]. }
    split; [done|]. simpl. split; [by rewrite lookup_insert_eq|].
    split; [|done]. intros w Hw. by rewrite lookup_insert_ne.
Qed.

Lemma screenGeometryChanged_guarded_witness :
  views_live sample_app /\
  let screenIndex := indexOf (screens (desktop sample_app)) 9%positive in
  exists st',
    screenGeometryChanged 9%positive (mkRect 1920 0 2560 1440) sample_app = Ok tt st' /\
    m_views st' = m_views sample_app /\
    (screenIndex < 0 <-> 9%positive ∉ screens (desktop sample_app)) /\
    (screenIndex < 0 \/ Z.of_nat (length (m_views sample_app)) <= screenIndex ->
       heap st' = heap sample_app /\
       trace st' = trace sample_app ++ [CWarning screenIndex]) /\
    (0 <= screenIndex < Z.of_nat (length (m_views sample_app)) ->
       exists v q,
         m_views sample_app !! Z.to_nat screenIndex = Some v /\
         screens (desktop sample_app) !! Z.to_nat screenIndex = Some 9%positive /\
         heap sample_app !! v = Some q /\
         heap st' !! v = Some (mkView (mkRect 1920 0 2560 1440) (screen q)
                                      (frameless q) (visibility q)
                                      (keyboardGrab q) (viewVisible q)) /\
         (forall w, w <> v -> heap st' !! w = heap sample_app !! w) /\
         trace st' = trace sample_app).
Proof.
  assert (H : views_live sample_app)
    by (apply (bool_decide_unpack _); vm_compute; reflexivity).
  split; [exact H|].
  exact (screenGeometryChanged_guarded 9%positive (mkRect 1920 0 2560 1440)
           sample_app H).
Defined.

(** C6. On success [onSucceeded] returns without touching a view.  If some
    view is on the primary screen, the first such view is the main view and
    the one call recorded is the start of an animation on it: 500 ms, OutSine,
    from the y of its geometry to y minus its height (in [int] arithmetic,
    which is the plain difference whenever that fits an [int]); no exit is
    recorded then, each value of the animation only becomes the view's y, and
    exit is recorded by the animation's finished handler.  If no view is on
    the primary screen, the one call recorded is exit. *)
Theorem onSucceeded_slides_out st :
  views_live st ->
  exists st',
    onSucceeded st = Ok tt st' /\
    m_views st' = m_views st /\ heap st' = heap st /\
    (forall mv, is_main_view st mv ->
       exists q a,
         heap st !! mv = Some q /\
         trace st' = trace st ++ [CAnimationStart a] /\
         ani_target a = mv /\ ani_duration a = 500 /\ ani_easing a = OutSine /\
         ani_startValue a = ry (geometry q) /\
         ani_endValue a = int (ry (geometry q) - rheight (geometry q)) /\
         (INT_MIN <= ry (geometry q) - rheight (geometry q) <= INT_MAX ->
            ani_endValue a = ry (geometry q) - rheight (geometry q)) /\
         (forall value s2 q2, heap s2 !! mv = Some q2 ->
            exists s3,
              animation_valueChanged a value s2 = Ok tt s3 /\
              view_field (fun q => ry (geometry q)) s3 mv = Some value /\
              trace s3 = trace s2)) /\
    (Forall (fun v => on_primary st v = false) (m_views st) ->
       trace st' = trace st ++ [CExit]) /\
    (forall s2, animation_finished s2 = Ok tt (log CExit s2)).
Proof.
  intros Hlive. eexists. split; [by apply onSucceeded_spec|].
  split; [done|]. split; [done|]. split; [|split; [|done]].
  - intros mv (pre & post & Hvs & Hpre & Hmv).
    assert (Hin : mv ∈ m_views st).
    { rewrite Hvs. apply elem_of_app. right. by left. }
    destruct (views_live_elem st mv Hlive Hin) as [q Hq].
    simpl. rewrite Hvs, (find_first_unique _ _ _ _ Hpre Hmv), Hq.
    eexists q, _. split; [done|]. split; [reflexivity|]. simpl.
    repeat (split; [done|]). split; [apply int_small|].
    intros value s2 q2 Hq2. unfold animation_valueChanged, setY. simpl.
    eexists. split; [by apply update_Ok|].
    unfold view_field. simpl. by rewrite lookup_insert_eq.
  - intros Hnone. simpl. by rewrite (find_none_all _ _ Hnone).
Qed.

Lemma onSucceeded_slides_out_witness :
  views_live sample_app /\
  exists st',
    onSucceeded sample_app = Ok tt st' /\
    m_views st' = m_views sample_app /\ heap st' = heap sample_app /\
    (forall mv, is_main_view sample_app mv ->
       exists q a,
         heap sample_app !! mv = Some q /\
         trace st' = trace sample_app ++ [CAnimationStart a] /\
         ani_target a = mv /\ ani_duration a = 500 /\ ani_easing a = OutSine /\
         ani_startValue a = ry (geometry q) /\
         ani_endValue a = int (ry (geometry q) - rheight (geometry q)) /\
         (INT_MIN <= ry (geometry q) - rheight (geometry q) <= INT_MAX ->
            ani_endValue a = ry (geometry q) - rheight (geometry q)) /\
         (forall value s2 q2, heap s2 !! mv = Some q2 ->
            exists s3,
              animation_valueChanged a value s2 = Ok tt s3 /\
              view_field (fun q => ry (geometry q)) s3 mv = Some value /\
              trace s3 = trace s2)) /\
    (Forall (fun v => on_primary sample_app v = false) (m_views sample_app) ->
       trace st' = trace sample_app ++ [CExit]) /\
    (forall s2, animation_finished s2 = Ok tt (log CExit s2)).
Proof.
  assert (H : views_live sample_app)
    by (apply (bool_decide_unpack _); vm_compute; reflexivity).
  split; [exact H|]. exact (onSucceeded_slides_out sample_app H).
Defined.

Lemma grab_all_grabbed (h : gmap positive QQuickView) vs w v :
  v ∈ vs -> is_Some (h !! v) ->
  keyboardGrab <$> alter grabbed w (foldl (fun h v => alter grabbed v h) h vs) !! v
    = Some true.
Proof.
  intros Hin [q Hq]. rewrite lookup_alter.
  destruct (decide (w = v)) as [->|Hne];
    rewrite lookup_grab_all, decide_True, Hq by done; done.
Qed.

(** C7, as the code has it.  [getFocus] returns; with no view it does
    nothing; otherwise it asks for the activation of the active screen and,
    when not in testing mode, enables the keyboard grab of that window and of
    every view in [m_views] (in testing mode it leaves every view as it was).
    No operation of the program ever sets the keyboard grab of a view back
    to disabled: a grab ends only with its window. *)
Theorem getFocus_grabs_keyboard {tk : Toolkit} st :
  views_live st ->
  exists st',
    getFocus st = Ok tt st' /\
    m_views st' = m_views st /\
    (m_views st = [] -> st' = st) /\
    (m_views st <> [] ->
       exists w, is_active_screen st w /\
         trace st' = trace st ++ [CRequestActivate w] /\
         (m_testing st = false ->
            view_field keyboardGrab st' w = Some true /\
            forall v, v ∈ m_views st -> view_field keyboardGrab st' v = Some true) /\
         (m_testing st = true -> heap st' = heap st)) /\
    (forall op s s' v,
       run op s = Ok tt s' ->
       view_field keyboardGrab s v = Some true ->
       view_field keyboardGrab s' v <> Some false).
Proof.
  intros Hlive.
  destruct (getFocus_spec st Hlive) as (r & _ & Hnull & Hact & Hrun).
  eexists. split; [exact Hrun|].
  split; [|split; [|split]].
  - destruct r as [w|]; [|done]. by destruct (m_testing st).
  - intros Hempty. apply Hnull in Hempty. by subst r.
  - intros Hne. destruct r as [w|]; [|by destruct Hne; apply Hnull].
    exists w. split; [by apply Hact|].
    assert (Hw : w ∈ m_views st).
    { destruct (Hact w eq_refl) as [(pre & post & -> & _)|[_ Hhead]].
      - apply elem_of_app. right. by left.
      - by apply head_Some_elem_of. }
    destruct (m_testing st) eqn:Ht; simpl.
    + split; [done|]. split; [done|]. done.
    + split; [done|]. split; [|done]. intros _. unfold view_field. simpl.
      split; [|intros v Hv]; apply grab_all_grabbed;
        auto using views_live_elem.
  - intros op s s' v. apply no_release.
Qed.

Lemma getFocus_grabs_keyboard_witness :
  views_live sample_app /\
  exists st',
    @getFocus sample_toolkit sample_app = Ok tt st' /\
    m_views st' = m_views sample_app /\
    (m_views sample_app = [] -> st' = sample_app) /\
    (m_views sample_app <> [] ->
       exists w, @is_active_screen sample_toolkit sample_app w /\
         trace st' = trace sample_app ++ [CRequestActivate w] /\
         (m_testing sample_app = false ->
            view_field keyboardGrab st' w = Some true /\
            forall v, v ∈ m_views sample_app ->
              view_field keyboardGrab st' v = Some true) /\
         (m_testing sample_app = true -> heap st' = heap sample_app)) /\
    (forall op s s' v,
       @run sample_toolkit op s = Ok tt s' ->
       view_field keyboardGrab s v = Some true ->
       view_field keyboardGrab s' v <> Some false).
Proof.
  assert (H : views_live sample_app)
    by (apply (bool_decide_unpack _); vm_compute; reflexivity).
  split; [exact H|]. exact (@getFocus_grabs_keyboard sample_toolkit sample_app H).
Defined.

(** C7 as stated fails: there is no toolkit, operation, state and view for
    which the operation completes and leaves disabled a keyboard grab that
    was enabled. *)
Lemma keyboard_grab_never_released :
  ~ exists (tk : Toolkit) (op : Op) (st st' : Application) (v : ViewPtr),
      @run tk op st = Ok tt st' /\
      view_field keyboardGrab st v = Some true /\
      view_field keyboardGrab st' v = Some false.
Proof.
  intros (tk & op & st & st' & v & Hrun & Hon & Hoff).
  exact (no_release op st st' v Hrun Hon Hoff).
Qed.

(** C8. A MouseButtonPress seen by the event filter, on any object: the
    filter returns false with the event untouched; when [m_views] is not
    empty the one call it records is the request to activate the active
    screen, and with no view it does nothing. *)
Theorem eventFilter_mouse_press {tk : Toolkit}
    (send : QObject -> QEvent -> M QEvent) obj e st :
  views_live st ->
  kind e = MouseButtonPress ->
  exists st',
    eventFilter send obj e st = Ok (false, e) st' /\
    m_views st' = m_views st /\ heap st' = heap st /\
    (m_views st <> [] ->
       exists w, is_active_screen st w /\
         trace st' = trace st ++ [CRequestActivate w]) /\
    (m_views st = [] -> st' = st).
Proof.
  intros Hlive Hk.
  destruct (eventFilter_mouse send obj e st Hlive Hk) as (r & _ & Hnull & Hact & Hrun).
  eexists. split; [exact Hrun|].
  destruct r as [w|]; simpl.
  - split; [done|]. split; [done|]. split.
    + intros _. exists w. split; [by apply Hact|done].
    + intros Hempty. apply Hnull in Hempty. done.
  - split; [done|]. split; [done|]. split; [|done].
    intros Hne. destruct Hne. by apply Hnull.
Qed.

Lemma eventFilter_mouse_press_witness :
  views_live sample_app /\
  kind (mkEvent MouseButtonPress true) = MouseButtonPress /\
  exists st',
    @eventFilter sample_toolkit (@sendEvent sample_toolkit 2) (ObjView 1%positive)
      (mkEvent MouseButtonPress true) sample_app
      = Ok (false, mkEvent MouseButtonPress true) st' /\
    m_views st' = m_views sample_app /\ heap st' = heap sample_app /\
    (m_views sample_app <> [] ->
       exists w, @is_active_screen sample_toolkit sample_app w /\
         trace st' = trace sample_app ++ [CRequestActivate w]) /\
    (m_views sample_app = [] -> st' = sample_app).
Proof.
  assert (H : views_live sample_app)
    by (apply (bool_decide_unpack _); vm_compute; reflexivity).
  split; [exact H|]. split; [reflexivity|].
  exact (@eventFilter_mouse_press sample_toolkit (@sendEvent sample_toolkit 2)
           (ObjView 1%positive) (mkEvent MouseButtonPress true) sample_app
           H eq_refl).
Defined.

(** C9. The verdict of the event filter is true for exactly one kind of
    event, a KeyRelease whose key is Qt::Key_Escape, and false for every other
    event on every object: so for every run that completes, whatever sends
    the forwarded events; and from a state whose views are live the filter
    does return. *)
Theorem eventFilter_consumes_only_escape_release {tk : Toolkit} fuel obj e st :
  (forall send b e' st',
     eventFilter send obj e st = Ok (b, e') st' ->
     (b = true <-> kind e = KeyRelease Key_Escape)) /\
  (views_live st ->
   exists b e' st',
     eventFilter (sendEvent (S fuel)) obj e st = Ok (b, e') st' /\
     (b = true <-> kind e = KeyRelease Key_Escape)).
Proof.
  split.
  - intros send b e' st' ->%eventFilter_verdict_inv. apply bool_decide_eq_true.
  - intros Hlive.
    destruct (eventFilter_verdict fuel obj e st Hlive) as (e' & st' & Hrun).
    eexists _, e', st'. split; [exact Hrun|].
    apply bool_decide_eq_true.
Qed.

Lemma eventFilter_consumes_only_escape_release_witness :
  views_live sample_app /\
  exists b e' st',
    @eventFilter sample_toolkit (@sendEvent sample_toolkit 1) (ObjView 1%positive)
      (mkEvent (KeyRelease Key_Escape) true) sample_app = Ok (b, e') st' /\
    (b = true <->
     kind (mkEvent (KeyRelease Key_Escape) true) = KeyRelease Key_Escape).
Proof.
  assert (H : views_live sample_app)
    by (apply (bool_decide_unpack _); vm_compute; reflexivity).
  split; [exact H|].
  exact (proj2 (@eventFilter_consumes_only_escape_release sample_toolkit 0
                  (ObjView 1%positive) (mkEvent (KeyRelease Key_Escape) true)
                  sample_app) H).
Defined.

(** C10. [getActiveScreen] returns null if and only if [m_views] is empty,
    in every run that completes.  From a state whose views are live it does
    return, changing nothing, and what it returns for a list that is not
    empty is the first view of [m_views] whose geometry contains the cursor,
    or the first view of [m_views] when no view's geometry does. *)
Theorem getActiveScreen_null_iff_empty {tk : Toolkit} st :
  (forall r st', getActiveScreen st = Ok r st' -> (r = None <-> m_views st = [])) /\
  (views_live st ->
   exists r,
     getActiveScreen st = Ok r st /\
     (r = None <-> m_views st = []) /\
     (m_views st <> [] -> exists w, r = Some w) /\
     (forall w, r = Some w -> is_active_screen st w)).
Proof.
  split; [intros r st'; apply getActiveScreen_null_inv|].
  intros Hlive.
  destruct (getActiveScreen_spec st Hlive) as (r & Hrun & Hnull & Hact).
  exists r. split; [done|]. split; [done|]. split; [|done].
  intros Hne. destruct r as [w|]; [eauto|].
  destruct Hne. by apply Hnull.
Qed.

Lemma getActiveScreen_null_iff_empty_witness :
  views_live sample_app /\
  exists r,
    @getActiveScreen sample_toolkit sample_app = Ok r sample_app /\
    (r = None <-> m_views sample_app = []) /\
    (m_views sample_app <> [] -> exists w, r = Some w) /\
    (forall w, r = Some w -> @is_active_screen sample_toolkit sample_app w).
Proof.
  assert (H : views_live sample_app)
    by (apply (bool_decide_unpack _); vm_compute; reflexivity).
  split; [exact H|].
  exact (proj2 (@getActiveScreen_null_iff_empty sample_toolkit sample_app) H).
Defined.

(** * Further properties *)

(** ** The records [desktopResized] leaves *)

Lemma createView_exact i s st :
  screens (desktop st) !! i = Some s ->
  createView i st =
    Ok tt (log (CConnectFrameSwapped (fresh (dom (heap st))))
             (set_views (m_views st ++ [fresh (dom (heap st))])
                (set_heap (<[fresh (dom (heap st)) :=
                              created (desktop st) (m_testing st) s]> (heap st)) st))).
Proof.
  intros Hs. set (v := fresh (dom (heap st))).
  unfold createView, newView, screenAt, setGeometry, setFlagsFrameless.
  unfold bind at 1. fold v. unfold bind at 1. simpl. rewrite Hs.
  unfold bind at 1. unfold gets at 1. simpl.
  unfold bind at 1. erewrite update_Ok by (simpl; apply lookup_insert_eq).
  unfold bind at 1. unfold gets at 1. simpl.
  destruct (m_testing st) eqn:Ht; simpl.
  - unfold bind at 1. unfold ret at 1.
    unfold bind at 1. erewrite update_Ok by (simpl; apply lookup_insert_eq).
    unfold bind, call, modify, log, set_views, set_heap, created. simpl.
    rewrite !insert_insert_eq, Ht. reflexivity.
  - unfold bind at 1. erewrite update_Ok by (simpl; apply lookup_insert_eq).
    unfold bind at 1. erewrite update_Ok by (simpl; apply lookup_insert_eq).
    unfold bind, call, modify, log, set_views, set_heap, created. simpl.
    rewrite !insert_insert_eq, Ht. reflexivity.
Qed.

(** The second loop, record by record: the view made in round [j] is the one
    for screen [i + j]; no address but those of the new views changes. *)
Lemma extend_views_records rounds : forall i st,
  (i + rounds <= length (screens (desktop st)))%nat ->
  exists st' news,
    forRounds rounds i createView st = Ok tt st' /\
    m_views st' = m_views st ++ news /\
    length news = rounds /\
    same_frame st st' /\
    (forall w, w ∉ news -> heap st' !! w = heap st !! w) /\
    (forall j v, news !! j = Some v ->
       heap st !! v = None /\
       exists s, screens (desktop st) !! (i + j)%nat = Some s /\
         heap st' !! v = Some (created (desktop st) (m_testing st) s)).
Proof.
  induction rounds as [|rounds IH]; intros i st Hle.
  - exists st, []. simpl. rewrite app_nil_r.
    split; [done|]. split; [done|]. split; [done|].
    split; [apply same_frame_refl|]. split; [done|]. intros j v Hj. done.
  - destruct (lookup_lt_is_Some_2 (screens (desktop st)) i) as [s Hs]; [lia|].
    pose proof (createView_exact i s st Hs) as Hrun.
    set (v0 := fresh (dom (heap st))) in *.
    set (st1 := log (CConnectFrameSwapped v0)
                  (set_views (m_views st ++ [v0])
                     (set_heap (<[v0 := created (desktop st) (m_testing st) s]> (heap st)) st)))
      in *.
    destruct (IH (S i) st1) as (st' & news & Hrun' & Hviews' & Hlen & Hframe' & Hold & Hnew).
    { simpl. lia. }
    assert (Hv0 : heap st !! v0 = None) by apply fresh_not_live.
    assert (Hv0news : v0 ∉ news).
    { intros (j & Hj)%list_elem_of_lookup_1.
      destruct (Hnew j v0 Hj) as [Hnone _]. simpl in Hnone.
      by rewrite lookup_insert_eq in Hnone. }
    exists st', (v0 :: news).
    split; [|split; [|split; [|split; [|split]]]].
    + simpl. rewrite (bind_run _ _ _ _ _ Hrun). exact Hrun'.
    + rewrite Hviews'. simpl. by rewrite <- app_assoc.
    + simpl. lia.
    + eapply same_frame_trans; [|exact Hframe']. by unfold same_frame.
    + intros w Hw. apply not_elem_of_cons in Hw as [Hne Hw].
      rewrite Hold by done. simpl. by rewrite lookup_insert_ne.
    + intros [|j] v Hj; simpl in Hj.
      * injection Hj as <-. split; [done|]. exists s.
        rewrite Nat.add_0_r. split; [done|].
        rewrite Hold by done. simpl. by rewrite lookup_insert_eq.
      * destruct (Hnew j v Hj) as (Hfresh & sj & Hsj & Hrec). simpl in *.
        split.
        { by apply lookup_insert_None in Hfresh as [? _]. }
        exists sj. replace (i + S j)%nat with (S i + j)%nat by lia. done.
Qed.

Lemma showView_exact i v s q st :
  m_views st !! i = Some v ->
  screens (desktop st) !! i = Some s ->
  heap st !! v = Some q ->
  showView i st =
    Ok tt (log (CRaise v) (set_heap (<[v := shown (m_testing st) s q]> (heap st)) st)).
Proof.
  intros Hv Hs Hq.
  unfold showView, viewAt, screenAt, setScreen, setVisibility.
  unfold bind at 1. rewrite Hv. unfold bind at 1. rewrite Hs.
  unfold bind at 1. erewrite update_Ok by exact Hq.
  unfold bind at 1. unfold gets at 1. simpl.
  destruct (m_testing st) eqn:Ht.
  - unfold bind at 1. erewrite update_Ok by (simpl; apply lookup_insert_eq).
    unfold call, modify, log, set_heap, shown. simpl.
    by rewrite insert_insert_eq, Ht.
  - unfold bind at 1. erewrite update_Ok by (simpl; apply lookup_insert_eq).
    unfold call, modify, log, set_heap, shown. simpl.
    by rewrite insert_insert_eq, Ht.
Qed.

(** The third loop, record by record. *)
Lemma show_views_records rounds : forall i st,
  wf st ->
  (i + rounds <= length (m_views st))%nat ->
  (i + rounds <= length (screens (desktop st)))%nat ->
  exists st',
    forRounds rounds i showView st = Ok tt st' /\
    m_views st' = m_views st /\
    same_frame st st' /\
    (forall j v s q, (i <= j < i + rounds)%nat ->
       m_views st !! j = Some v -> screens (desktop st) !! j = Some s ->
       heap st !! v = Some q ->
       heap st' !! v = Some (shown (m_testing st) s q)) /\
    (forall w, (forall j, (i <= j < i + rounds)%nat -> m_views st !! j <> Some w) ->
       heap st' !! w = heap st !! w).
Proof.
  induction rounds as [|rounds IH]; intros i st Hwf Hlv Hls.
  - exists st. simpl. split; [done|]. split; [done|].
    split; [apply same_frame_refl|]. split; [intros; lia|done].
  - destruct (lookup_lt_is_Some_2 (m_views st) i) as [v Hv]; [lia|].
    destruct (lookup_lt_is_Some_2 (screens (desktop st)) i) as [s Hs]; [lia|].
    destruct (views_live_elem st v) as [q Hq]; [apply Hwf| |].
    { eapply list_elem_of_lookup_2, Hv. }
    pose proof (showView_exact i v s q st Hv Hs Hq) as Hrun.
    set (st1 := log (CRaise v) (set_heap (<[v := shown (m_testing st) s q]> (heap st)) st))
      in *.
    assert (Hwf1 : wf st1) by (eapply (wf_update st st1 v q); eauto).
    destruct (IH (S i) st1 Hwf1) as (st' & Hrun' & Hviews' & Hframe' & Hset & Hkeep).
    { simpl. lia. }
    { simpl. lia. }
    exists st'. split; [|split; [|split; [|split]]].
    + simpl. rewrite (bind_run _ _ _ _ _ Hrun). exact Hrun'.
    + by rewrite Hviews'.
    + eapply same_frame_trans; [|exact Hframe']. by unfold same_frame.
    + intros j w sj qj Hj Hw Hsj Hqj.
      destruct (decide (j = i)) as [->|Hne].
      * assert (w = v) by congruence. assert (sj = s) by congruence.
        assert (qj = q) by congruence. subst.
        rewrite Hkeep; [simpl; by rewrite lookup_insert_eq|].
        intros j Hj' Hj''. simpl in Hj''.
        destruct Hwf as [Hnd _].
        pose proof (NoDup_lookup _ _ _ _ Hnd Hv Hj''). lia.
      * apply (Hset j w sj qj); [lia|done|done|].
        simpl. rewrite lookup_insert_ne; [done|].
        intros <-. destruct Hwf as [Hnd _].
        pose proof (NoDup_lookup _ _ _ _ Hnd Hv Hw). lia.
    + intros w Hw. rewrite Hkeep.
      * simpl. apply lookup_insert_ne. intros <-. apply (Hw i); [lia|done].
      * intros j Hj. simpl. apply Hw. lia.
Qed.

Lemma shown_shown testing s q : shown testing s (shown testing s q) = shown testing s q.
Proof. reflexivity. Qed.

(** [desktopResized] record by record: a listed view that existed is shown
    on its screen and is otherwise as it was; a listed view that did not
    exist is a created one, shown; nothing else changes. *)
Lemma desktopResized_records st :
  wf st ->
  let nScreens := length (screens (desktop st)) in
  exists st' news,
    desktopResized st = Ok tt st' /\
    wf st' /\
    same_frame st st' /\
    m_views st' = take nScreens (m_views st) ++ news /\
    length news = (nScreens - length (m_views st))%nat /\
    (forall i v s, m_views st' !! i = Some v -> screens (desktop st) !! i = Some s ->
       heap st' !! v =
         Some (shown (m_testing st) s
                 (default (created (desktop st) (m_testing st) s) (heap st !! v)))) /\
    (forall w, w ∉ m_views st' -> heap st' !! w = heap st !! w).
Proof.
  intros Hwf nScreens.
  destruct (remove_useless_spec nScreens (S (length (m_views st))) st)
    as (st1 & Hrun1 & Hviews1 & Hheap1 & _ & Hframe1); [lia|].
  assert (Hwf1 : wf st1).
  { destruct Hwf as [Hnd Hlive]. unfold wf, views_live in *.
    rewrite Hviews1, Hheap1. split.
    - rewrite <- (take_drop nScreens (m_views st)) in Hnd.
      by apply NoDup_app in Hnd as [? _].
    - by apply Forall_take. }
  destruct Hframe1 as (Hd1 & Ht1 & Hf1).
  destruct (extend_views_spec (nScreens - length (m_views st1)) (length (m_views st1)) st1)
    as (st2 & news0 & Hrun2 & _ & _ & _ & Hwf2 & _).
  { rewrite Hd1. fold nScreens. rewrite Hviews1, length_take. lia. }
  specialize (Hwf2 Hwf1).
  destruct (extend_views_records (nScreens - length (m_views st1)) (length (m_views st1)) st1)
    as (st2' & news & Hrun2' & Hviews2 & Hlen2 & Hframe2 & Hold2 & Hnew2).
  { rewrite Hd1. fold nScreens. rewrite Hviews1, length_take. lia. }
  assert (st2' = st2) as -> by congruence. clear Hrun2' news0.
  destruct Hframe2 as (Hd2 & Ht2 & Hf2).
  assert (Hcount : length (m_views st2) = nScreens).
  { rewrite Hviews2, length_app, Hlen2, Hviews1, length_take. lia. }
  destruct (show_views_records nScreens 0 st2 Hwf2)
    as (st3 & Hrun3 & Hviews3 & Hframe3 & Hset & Hkeep); [lia| |].
  { rewrite Hd2, Hd1. fold nScreens. lia. }
  destruct Hframe3 as (Hd3 & Ht3 & Hf3).
  assert (Hwf3 : wf st3).
  { destruct (show_views_spec nScreens 0 st2 Hwf2) as (st3' & Hrun3' & _ & W & _); [lia| |].
    - rewrite Hd2, Hd1. fold nScreens. lia.
    - congruence. }
  exists st3, news. split; [|split; [|split; [|split; [|split; [|split]]]]].
  - unfold desktopResized, screenCount, viewCount.
    unfold bind at 1. unfold gets at 1.
    unfold bind at 1. unfold gets at 1.
    fold nScreens. rewrite (bind_run _ _ _ _ _ Hrun1).
    unfold bind at 1. unfold gets at 1.
    unfold forRange. rewrite (bind_run _ _ _ _ _ Hrun2).
    rewrite Nat.sub_0_r. exact Hrun3.
  - exact Hwf3.
  - unfold same_frame. split; [|split]; congruence.
  - by rewrite Hviews3, Hviews2, Hviews1.
  - rewrite Hlen2, Hviews1, length_take. lia.
  - intros i v s Hv Hs. rewrite Hviews3 in Hv.
    assert (Hi : (i < nScreens)%nat) by (by apply lookup_lt_Some in Hs).
    assert (Hs2 : screens (desktop st2) !! i = Some s) by (by rewrite Hd2, Hd1).
    rewrite Ht2, Ht1 in Hset.
    destruct (decide (i < length (m_views st1))%nat) as [Hold|Hnew].
    + (* a view that was there before *)
      assert (Hv1 : m_views st1 !! i = Some v).
      { rewrite Hviews2, lookup_app_l in Hv by done. done. }
      destruct (views_live_elem st1 v) as [q Hq]; [apply Hwf1| |].
      { eapply list_elem_of_lookup_2, Hv1. }
      assert (Hvn : v ∉ news).
      { intros (j & Hj)%list_elem_of_lookup_1.
        destruct (Hnew2 j v Hj) as [Hnone _]. congruence. }
      rewrite (Hset i v s q); [|lia|done|done|by rewrite Hold2].
      rewrite <- Hheap1, Hq. done.
    + (* a view the second loop made *)
      assert (Hvn : news !! (i - length (m_views st1))%nat = Some v).
      { rewrite Hviews2, lookup_app_r in Hv by lia. done. }
      destruct (Hnew2 _ v Hvn) as (Hnone & s' & Hs' & Hrec).
      replace (length (m_views st1) + (i - length (m_views st1)))%nat with i in Hs' by lia.
      rewrite Hd1 in Hs'. assert (s' = s) as -> by congruence.
      rewrite (Hset i v s _ ltac:(lia) Hv Hs2 Hrec).
      rewrite <- Hheap1, Hnone. simpl. by rewrite Hd1, Ht1.
  - intros w Hw. rewrite Hviews3, Hviews2 in Hw.
    apply not_elem_of_app in Hw as [Hw1 Hwn].
    rewrite Hkeep.
    + rewrite Hold2 by done. by rewrite Hheap1.
    + intros j _ Hj. apply list_elem_of_lookup_2 in Hj.
      rewrite Hviews2 in Hj. apply elem_of_app in Hj as [?|?]; done.
Qed.

Lemma deleted_later_app tr1 tr2 :
  deleted_later (tr1 ++ tr2) = deleted_later tr1 ++ deleted_later tr2.
Proof.
  induction tr1 as [|c tr1 IH]; [done|].
  destruct c; simpl; try done. by rewrite IH.
Qed.

Lemma deleted_later_deleteLater l : deleted_later (CDeleteLater <$> l) = l.
Proof. induction l as [|v l IH]; [done|]. simpl. f_equal. exact IH. Qed.

Lemma deleted_later_connect l : deleted_later (CConnectFrameSwapped <$> l) = [].
Proof. induction l as [|v l IH]; [done|]. exact IH. Qed.

Lemma deleted_later_raise l : deleted_later (CRaise <$> l) = [].
Proof. induction l as [|v l IH]; [done|]. exact IH. Qed.

Lemma forEach_calls {A} (f : A -> Call) (l : list A) : forall st,
  forEach l (fun x => call (f x)) st = Ok tt (logs (f <$> l) st).
Proof.
  induction l as [|x l IH]; intros st; simpl.
  - unfold ret. by rewrite logs_nil.
  - unfold bind, call, modify. rewrite IH.
    f_equal. unfold log, logs. simpl. by rewrite <- app_assoc.
Qed.

(** X2. What [desktopResized] does to the records.  A listed view that was
    there before is put on the screen at its index and shown (full screen, or
    windowed in testing mode), and that is all: its geometry, its flags and
    its keyboard grab stay as they were, so an old view is not moved to the
    geometry of the screen it is now on.  A listed view that was not there
    before is a new one, made with the geometry of the screen at its index
    and frameless unless in testing mode.  No view outside the list changes,
    and neither do the mode and the filter. *)
Theorem desktopResized_keeps_old_views st :
  wf st ->
  exists st',
    desktopResized st = Ok tt st' /\
    same_frame st st' /\
    (forall i v s, m_views st' !! i = Some v -> screens (desktop st) !! i = Some s ->
       match heap st !! v with
       | Some q => heap st' !! v = Some (shown (m_testing st) s q)
       | None =>
           heap st' !! v =
             Some (shown (m_testing st) s (created (desktop st) (m_testing st) s))
       end) /\
    (forall w, w ∉ m_views st' -> heap st' !! w = heap st !! w).
Proof.
  intros Hwf.
  destruct (desktopResized_records st Hwf)
    as (st' & news & Hrun & _ & Hframe & _ & _ & Hrec & Hrest).
  exists st'. split; [done|]. split; [done|]. split; [|done].
  intros i v s Hv Hs. rewrite (Hrec i v s Hv Hs).
  by destruct (heap st !! v).
Qed.

Lemma desktopResized_keeps_old_views_witness :
  wf sample_app /\
  exists st',
    desktopResized sample_app = Ok tt st' /\
    same_frame sample_app st' /\
    (forall i v s, m_views st' !! i = Some v ->
       screens (desktop sample_app) !! i = Some s ->
       match heap sample_app !! v with
       | Some q => heap st' !! v = Some (shown (m_testing sample_app) s q)
       | None =>
           heap st' !! v =
             Some (shown (m_testing sample_app) s
                     (created (desktop sample_app) (m_testing sample_app) s))
       end) /\
    (forall w, w ∉ m_views st' -> heap st' !! w = heap sample_app !! w).
Proof.
  assert (H : wf sample_app) by (apply (bool_decide_unpack _); vm_compute; reflexivity).
  split; [exact H|]. exact (desktopResized_keeps_old_views sample_app H).
Defined.

(** X3. [desktopResized] is idempotent on a desktop that does not change: a
    second run right after the first deletes nothing, creates nothing and
    leaves every record as it is; all it does is raise every view again. *)
Theorem desktopResized_idempotent st :
  wf st ->
  exists st1 st2,
    desktopResized st = Ok tt st1 /\
    desktopResized st1 = Ok tt st2 /\
    m_views st2 = m_views st1 /\
    heap st2 = heap st1 /\
    trace st2 = trace st1 ++ (CRaise <$> m_views st1).
Proof.
  intros Hwf.
  destruct (desktopResized_records st Hwf)
    as (st1 & news1 & Hrun1 & Hwf1 & Hframe1 & Hviews1 & Hlen1 & Hrec1 & _).
  destruct Hframe1 as (Hd1 & Ht1 & _).
  assert (Hcount : length (m_views st1) = length (screens (desktop st1))).
  { by apply (desktopResized_count st). }
  destruct (desktopResized_records st1 Hwf1)
    as (st2 & news2 & Hrun2 & _ & _ & Hviews2 & Hlen2 & Hrec2 & Hrest2).
  destruct (desktopResized_spec st1 Hwf1)
    as (st2' & news2' & Hrun2' & _ & _ & Hviews2' & Hlen2' & _ & _ & Htrace2).
  assert (st2' = st2) as -> by congruence.
  assert (news2 = []) as -> by (apply length_zero_iff_nil; lia).
  assert (news2' = []) as -> by (apply length_zero_iff_nil; lia).
  rewrite app_nil_r, take_ge in Hviews2 by lia.
  exists st1, st2. split; [done|]. split; [done|]. split; [done|]. split.
  - apply map_eq. intros w.
    destruct (decide (w ∈ m_views st2)) as [Hin|Hout]; [|by apply Hrest2].
    apply list_elem_of_lookup_1 in Hin as [i Hi].
    destruct (lookup_lt_is_Some_2 (screens (desktop st1)) i) as [s Hs].
    { apply lookup_lt_Some in Hi. rewrite Hviews2 in Hi. lia. }
    rewrite (Hrec2 i w s Hi Hs).
    rewrite Hviews2 in Hi. rewrite Hd1 in Hs.
    rewrite (Hrec1 i w s Hi Hs). simpl. by rewrite Ht1.
  - rewrite Htrace2, Hviews2, drop_ge by lia. reflexivity.
Qed.

Lemma desktopResized_idempotent_witness :
  wf sample_app /\
  exists st1 st2,
    desktopResized sample_app = Ok tt st1 /\
    desktopResized st1 = Ok tt st2 /\
    m_views st2 = m_views st1 /\
    heap st2 = heap st1 /\
    trace st2 = trace st1 ++ (CRaise <$> m_views st1).
Proof.
  assert (H : wf sample_app) by (apply (bool_decide_unpack _); vm_compute; reflexivity).
  split; [exact H|]. exact (desktopResized_idempotent sample_app H).
Defined.

(** X4. [desktopResized] hands to deleteLater exactly the views it drops
    from [m_views], last first: no view handed to deleteLater is still
    listed (nor is it touched again, it is still live for the event loop to
    delete), and no view leaves the list without being handed to it. *)
Theorem desktopResized_deletes_what_it_drops st :
  wf st ->
  exists st' ext,
    desktopResized st = Ok tt st' /\
    trace st' = trace st ++ ext /\
    deleted_later ext = reverse (drop (length (screens (desktop st))) (m_views st)) /\
    (forall v, v ∈ deleted_later ext ->
       v ∈ m_views st /\ (v ∉ m_views st') /\ heap st' !! v = heap st !! v) /\
    (forall v, v ∈ m_views st -> v ∉ m_views st' -> v ∈ deleted_later ext).
Proof.
  intros Hwf. set (nScreens := length (screens (desktop st))).
  destruct (desktopResized_spec st Hwf)
    as (st' & news & Hrun & _ & _ & Hviews & _ & Hfresh & _ & Htrace).
  destruct (desktopResized_records st Hwf)
    as (st'' & news' & Hrun' & _ & _ & _ & _ & _ & Hrest).
  assert (st'' = st') as -> by congruence.
  fold nScreens in Hviews, Htrace.
  eexists st', _. split; [done|]. split; [exact Htrace|].
  rewrite !deleted_later_app, deleted_later_deleteLater, deleted_later_connect,
    deleted_later_raise, !app_nil_r.
  split; [done|].
  assert (Hsplit : m_views st = take nScreens (m_views st) ++ drop nScreens (m_views st))
    by (by rewrite take_drop).
  assert (Hdropped : forall v, v ∈ drop nScreens (m_views st) -> v ∉ m_views st').
  { intros v Hv. rewrite Hviews. intros [Htake|Hnew]%elem_of_app.
    - destruct Hwf as [Hnd _]. rewrite Hsplit in Hnd.
      apply NoDup_app in Hnd as (_ & Hdisj & _). by apply (Hdisj v).
    - rewrite Forall_forall in Hfresh. apply Hfresh in Hnew.
      destruct (views_live_elem st v) as [q Hq]; [apply Hwf| |congruence].
      rewrite Hsplit. apply elem_of_app. by right. }
  split.
  - intros v Hv. rewrite elem_of_reverse in Hv. split; [|split].
    + rewrite Hsplit. apply elem_of_app. by right.
    + by apply Hdropped.
    + apply Hrest. by apply Hdropped.
  - intros v Hv Hout. rewrite elem_of_reverse.
    rewrite Hsplit in Hv. apply elem_of_app in Hv as [Htake|Hdrop]; [|done].
    exfalso. apply Hout. rewrite Hviews. apply elem_of_app. by left.
Qed.

Lemma desktopResized_deletes_what_it_drops_witness :
  wf sample_app /\
  exists st' ext,
    desktopResized sample_app = Ok tt st' /\
    trace st' = trace sample_app ++ ext /\
    deleted_later ext =
      reverse (drop (length (screens (desktop sample_app))) (m_views sample_app)) /\
    (forall v, v ∈ deleted_later ext ->
       v ∈ m_views sample_app /\ (v ∉ m_views st') /\
       heap st' !! v = heap sample_app !! v) /\
    (forall v, v ∈ m_views sample_app -> v ∉ m_views st' -> v ∈ deleted_later ext).
Proof.
  assert (H : wf sample_app) by (apply (bool_decide_unpack _); vm_compute; reflexivity).
  split; [exact H|]. exact (desktopResized_deletes_what_it_drops sample_app H).
Defined.

(** X5. Start-up.  On any desktop, [initialViewSetup] run on the state the
    constructor leaves completes: it connects the geometry signal of every
    screen, in order, then creates one view per screen, in order, each with
    the geometry of its screen, on its screen, shown, frameless unless in
    testing mode and without the keyboard grab; the list has no duplicates
    and the event filter is installed. *)
Theorem initialViewSetup_from_constructor (d : Desktop) (testing : bool) :
  exists st',
    initialViewSetup (Application_new d testing) = Ok tt st' /\
    desktop st' = d /\ m_testing st' = testing /\ filterInstalled st' = true /\
    length (m_views st') = length (screens d) /\
    NoDup (m_views st') /\
    (forall i s, screens d !! i = Some s ->
       exists v, m_views st' !! i = Some v /\
         heap st' !! v = Some (shown testing s (created d testing s))) /\
    (forall w, w ∉ m_views st' -> heap st' !! w = None) /\
    trace st' = (CConnectGeometryChanged <$> screens d)
                  ++ (CConnectFrameSwapped <$> m_views st')
                  ++ (CRaise <$> m_views st').
Proof.
  set (st0 := logs (CConnectGeometryChanged <$> screens d) (Application_new d testing)).
  assert (Hwf0 : wf st0).
  { split; [apply NoDup_nil_2|]. by apply Forall_nil. }
  destruct (desktopResized_records st0 Hwf0)
    as (st' & news & Hrun & Hwf' & Hframe & Hviews & Hlen & Hrec & Hrest).
  destruct (desktopResized_spec st0 Hwf0)
    as (st'' & news' & Hrun' & _ & _ & Hviews' & _ & _ & _ & Htrace).
  assert (st'' = st') as -> by congruence.
  assert (news' = news) as ->.
  { rewrite Hviews in Hviews'. simpl in Hviews'. by rewrite take_nil in Hviews'. }
  destruct Hframe as (Hd & Ht & Hf). simpl in *.
  rewrite take_nil in Hviews. simpl in Hviews.
  exists st'. split; [|split; [done|split; [done|split; [done|split; [|split; [|split; [|split]]]]]]].
  - unfold initialViewSetup. unfold bind at 1. unfold gets at 1. simpl.
    unfold bind. rewrite forEach_calls. exact Hrun.
  - rewrite Hviews, Hlen. lia.
  - apply Hwf'.
  - intros i s Hs.
    destruct (lookup_lt_is_Some_2 (m_views st') i) as [v Hv].
    { rewrite Hviews, Hlen. apply lookup_lt_Some in Hs. lia. }
    exists v. split; [done|]. rewrite (Hrec i v s Hv Hs). by rewrite lookup_empty.
  - intros w Hw. rewrite (Hrest w Hw). apply lookup_empty.
  - rewrite Htrace, Hviews, drop_nil. reflexivity.
Qed.

(** X10. A geometry change after a resize always finds its view.  After
    [desktopResized], [screenGeometryChanged] for a screen that is connected
    never takes a warning path: it gives the new rectangle to the view at the
    index of that screen, which is the view the resize put on that screen,
    and changes no other view. *)
Theorem geometryChanged_after_resize s geo st :
  wf st ->
  s ∈ screens (desktop st) ->
  exists st1 st2 v q,
    desktopResized st = Ok tt st1 /\
    screenGeometryChanged s geo st1 = Ok tt st2 /\
    m_views st1 !! Z.to_nat (indexOf (screens (desktop st)) s) = Some v /\
    heap st1 !! v = Some q /\ screen q = Some s /\
    heap st2 !! v = Some (mkView geo (Some s) (frameless q) (visibility q)
                                 (keyboardGrab q) (viewVisible q)) /\
    (forall w, w <> v -> heap st2 !! w = heap st1 !! w) /\
    m_views st2 = m_views st1 /\ trace st2 = trace st1.
Proof.
  intros Hwf Hs.
  destruct (desktopResized_spec st Hwf)
    as (st1 & news & Hrun & Hwf1 & Hd & _ & _ & _ & Hset & _).
  pose proof (desktopResized_count st st1 Hrun) as Hcount.
  destruct (indexOf_spec (screens (desktop st)) s) as [[_ Hn]|[Hrange Hlook]]; [done|].
  destruct (lookup_lt_is_Some_2 (m_views st1) (Z.to_nat (indexOf (screens (desktop st)) s)))
    as [v Hv].
  { rewrite Hcount, Hd. lia. }
  pose proof (Hset _ v s Hv Hlook) as Hscreen. unfold view_field in Hscreen.
  destruct (heap st1 !! v) as [q|] eqn:Hq; [|done].
  simpl in Hscreen. injection Hscreen as Hscreen.
  eexists st1, _, v, q. split; [done|]. split.
  { apply (screenGeometryChanged_set s geo st1 v q).
    - rewrite Hd, Hcount, Hd. lia.
    - by rewrite Hd.
    - done. }
  split; [done|]. split; [done|]. split; [done|]. simpl.
  split; [by rewrite lookup_insert_eq, Hscreen|].
  split; [|done]. intros w Hw. by rewrite lookup_insert_ne.
Qed.

Lemma geometryChanged_after_resize_witness :
  wf sample_app /\
  9%positive ∈ screens (desktop sample_app) /\
  exists st1 st2 v q,
    desktopResized sample_app = Ok tt st1 /\
    screenGeometryChanged 9%positive (mkRect 1920 0 2560 1440) st1 = Ok tt st2 /\
    m_views st1 !! Z.to_nat (indexOf (screens (desktop sample_app)) 9%positive) = Some v /\
    heap st1 !! v = Some q /\ screen q = Some 9%positive /\
    heap st2 !! v = Some (mkView (mkRect 1920 0 2560 1440) (Some 9%positive)
                                 (frameless q) (visibility q)
                                 (keyboardGrab q) (viewVisible q)) /\
    (forall w, w <> v -> heap st2 !! w = heap st1 !! w) /\
    m_views st2 = m_views st1 /\ trace st2 = trace st1.
Proof.
  assert (H : wf sample_app) by (apply (bool_decide_unpack _); vm_compute; reflexivity).
  assert (H9 : 9%positive ∈ screens (desktop sample_app))
    by (apply (bool_decide_unpack _); vm_compute; reflexivity).
  split; [exact H|]. split; [exact H9|].
  exact (geometryChanged_after_resize 9%positive (mkRect 1920 0 2560 1440)
           sample_app H H9).
Defined.

(** ** Event dispatch as a whole *)

#[global] Instance views_untouched_preorder : PreOrder views_untouched.
Proof.
  split.
  - intros st. by repeat split.
  - intros st1 st2 st3 (H1 & V1 & D1 & T1) (H2 & V2 & D2 & T2).
    repeat split; congruence.
Qed.

#[global] Instance filter_same_preorder : PreOrder filter_same.
Proof.
  split.
  - intros st. by split.
  - intros st1 st2 st3 [F1 T1] [F2 T2]. split; congruence.
Qed.

Lemma views_untouched_modify f :
  (forall st, heap (f st) = heap st) -> (forall st, m_views (f st) = m_views st) ->
  (forall st, desktop (f st) = desktop st) -> (forall st, m_testing (f st) = m_testing st) ->
  preserves views_untouched (modify f).
Proof. intros Hh Hv Hd Ht st a st' [= _ <-]. by repeat split. Qed.

Lemma filter_same_modify f :
  (forall st, filterInstalled (f st) = filterInstalled st) ->
  (forall st, m_testing (f st) = m_testing st) ->
  preserves filter_same (modify f).
Proof. intros Hf Ht st a st' [= _ <-]. by split. Qed.

Lemma filter_same_update v f : preserves filter_same (update v f).
Proof. intros st a st' (q & Hq & ->)%update_inv. by split. Qed.

Lemma filter_same_newView : preserves filter_same newView.
Proof. intros st a st' [= _ <-]. by split. Qed.

Lemma filter_same_takeLast : preserves filter_same takeLast.
Proof.
  intros st a st'. unfold takeLast. destruct (last _); intros [= _ <-]. by split.
Qed.

Lemma filter_same_deleteView v : preserves filter_same (deleteView v).
Proof.
  intros st a st'. unfold deleteView.
  intros (q & st1 & [_ ->]%deref_inv & [= _ <-])%bind_Ok. by split.
Qed.

(** The steps of [preserves_tac], for the two relations above. *)
Ltac frame_tac :=
  repeat match goal with
  | |- preserves ?R _ =>
    first
      [ apply (preserves_ret R) | apply (preserves_fail R)
      | apply (preserves_gets R) | apply (preserves_deref R)
      | apply (preserves_screenAt R) | apply (preserves_viewAt R)
      | apply (preserves_firstView R)
      | apply filter_same_newView | apply filter_same_takeLast
      | apply filter_same_deleteView
      | apply views_untouched_modify; intros; reflexivity
      | apply filter_same_modify; intros; reflexivity
      | apply filter_same_update
      | apply (preserves_when R) | apply (preserves_void R)
      | apply (preserves_forEach R); intros
      | apply (preserves_forRounds R); intros
      | apply (preserves_while R)
      | assumption
      | match goal with
        | |- preserves _ (match ?x with _ => _ end) => destruct x
        end
      | apply (preserves_bind R); [|intros] ]
  end.

Section Dispatched.
Context {tk : Toolkit}.

Lemma views_untouched_getActiveScreen : preserves views_untouched getActiveScreen.
Proof.
  unfold getActiveScreen. frame_tac.
  induction a as [|v vs IH]; simpl; frame_tac.
Qed.

Lemma filter_same_getActiveScreen : preserves filter_same getActiveScreen.
Proof.
  unfold getActiveScreen. frame_tac.
  induction a as [|v vs IH]; simpl; frame_tac.
Qed.

Lemma views_untouched_sendEvent fuel r e : preserves views_untouched (sendEvent fuel r e).
Proof.
  apply (preserves_sendEvent views_untouched).
  - apply views_untouched_getActiveScreen.
  - intros. by apply views_untouched_modify.
  - intros. by apply views_untouched_modify.
Qed.

Lemma views_untouched_eventFilter fuel obj e :
  preserves views_untouched (eventFilter (sendEvent fuel) obj e).
Proof.
  apply (preserves_eventFilter views_untouched).
  - apply views_untouched_getActiveScreen.
  - intros. by apply views_untouched_modify.
  - intros. by apply views_untouched_modify.
  - apply views_untouched_sendEvent.
Qed.

(** Whoever sends the events, [shareEvent] does not leave a filter that was
    installed removed. *)
Lemma shareEvent_filter_inv send e from st e' st' :
  shareEvent send e from st = Ok e' st' ->
  filterInstalled st = true -> filterInstalled st' = true.
Proof.
  unfold shareEvent. intros (vs & st0 & [= <- <-] & Hrun)%bind_Ok Hf.
  destruct from as [f|]; [|by injection Hrun as _ <-].
  destruct (bool_decide (f ∈ m_views st)); [|by injection Hrun as _ <-].
  apply bind_Ok in Hrun as (u & st1 & _ & Hrun).
  apply bind_Ok in Hrun as (e1 & st2 & _ & Hrun).
  apply bind_Ok in Hrun as (u' & st3 & Hinst & [= _ <-]).
  unfold installEventFilter in Hinst.
  apply bind_Ok in Hinst as (u'' & st4 & [= _ <-] & [= _ <-]). done.
Qed.

Lemma eventFilter_filter_inv send obj e st r st' :
  eventFilter send obj e st = Ok r st' ->
  filterInstalled st = true -> filterInstalled st' = true.
Proof.
  unfold eventFilter. intros Hrun Hf.
  destruct (bool_decide (obj <> ObjApplication) && bool_decide (kind e = Show)).
  { apply bind_Ok in Hrun as (vs & st1 & [= _ <-] & [= _ <-]). done. }
  destruct (bool_decide (kind e = MouseButtonPress)).
  { assert (Hp : preserves filter_same
        (a <- getActiveScreen ;;
         match a with
         | Some _ =>
             a' <- getActiveScreen ;;
             match a' with
             | Some w => call (CRequestActivate w)
             | None => fail BadPointer
             end
         | None => ret tt
         end ;;; ret (false, e))).
    { pose proof filter_same_getActiveScreen. frame_tac. }
    apply Hp in Hrun as [-> _]. done. }
  destruct (kind e) as [| |key|key|t].
  - by injection Hrun as _ <-.
  - by injection Hrun as _ <-.
  - apply bind_Ok in Hrun as (e1 & st1 & Hshare & [= _ <-]).
    by eapply shareEvent_filter_inv.
  - destruct (bool_decide (key <> Key_Escape)); [|by injection Hrun as _ <-].
    apply bind_Ok in Hrun as (e1 & st1 & Hshare & [= _ <-]).
    by eapply shareEvent_filter_inv.
  - by injection Hrun as _ <-.
Qed.

Lemma sendEvent_filter_inv fuel r e st e' st' :
  sendEvent fuel r e st = Ok e' st' ->
  filterInstalled st = true -> filterInstalled st' = true.
Proof.
  destruct fuel as [|fuel]; [done|]. simpl. intros Hrun Hf.
  apply bind_Ok in Hrun as (filtered & st0 & [= <- <-] & Hrun).
  apply bind_Ok in Hrun as (u & st1 & [= _ <-] & Hrun).
  rewrite Hf in Hrun.
  apply bind_Ok in Hrun as ([b e1] & st2 & Hfilter & Hrun).
  apply eventFilter_filter_inv in Hfilter; [|done].
  simpl in Hrun. destruct b.
  - by injection Hrun as _ <-.
  - unfold deliver in Hrun.
    apply bind_Ok in Hrun as (u' & st3 & [= _ <-] & [= _ <-]). done.
Qed.

End Dispatched.

Section Invariant.
Context {tk : Toolkit}.

Lemma filter_kept_run op st st' :
  run op st = Ok tt st' ->
  filterInstalled st = true -> filterInstalled st' = true.
Proof.
  intros Hrun Hf.
  assert (Hsame : forall m : M unit, preserves filter_same m ->
            m st = Ok tt st' -> filterInstalled st' = true).
  { intros m Hm Hr. apply Hm in Hr as [-> _]. done. }
  destruct op; simpl in Hrun.
  - eapply Hsame; [|exact Hrun]. unfold Application_delete. frame_tac.
  - eapply Hsame; [|exact Hrun].
    unfold initialViewSetup, desktopResized, forRange, screenCount, viewCount,
      createView, showView, setGeometry, setFlagsFrameless, setScreen, setVisibility.
    frame_tac.
  - eapply Hsame; [|exact Hrun].
    unfold desktopResized, forRange, screenCount, viewCount,
      createView, showView, setGeometry, setFlagsFrameless, setScreen, setVisibility.
    frame_tac.
  - eapply Hsame; [|exact Hrun].
    unfold onScreenAdded, desktopResized, forRange, screenCount, viewCount,
      createView, showView, setGeometry, setFlagsFrameless, setScreen, setVisibility.
    frame_tac.
  - eapply Hsame; [|exact Hrun]. unfold onSucceeded. frame_tac.
    induction a as [|v vs IH]; simpl; frame_tac.
  - eapply Hsame; [|exact Hrun]. unfold animation_valueChanged, setY. frame_tac.
  - eapply Hsame; [|exact Hrun]. unfold animation_finished. frame_tac.
  - eapply Hsame; [|exact Hrun]. unfold getFocus, setKeyboardGrabEnabled.
    pose proof filter_same_getActiveScreen. frame_tac.
  - eapply Hsame; [|exact Hrun]. unfold markViewsAsVisible, setViewVisible. frame_tac.
  - eapply Hsame; [|exact Hrun]. pose proof filter_same_getActiveScreen. frame_tac.
  - apply bind_Ok in Hrun as (r & st1 & Hr & [= <-]).
    by eapply eventFilter_filter_inv.
  - apply bind_Ok in Hrun as (r & st1 & Hr & [= <-]).
    by eapply shareEvent_filter_inv.
  - apply bind_Ok in Hrun as (r & st1 & Hr & [= <-]).
    by eapply sendEvent_filter_inv.
  - eapply Hsame; [|exact Hrun].
    unfold screenGeometryChanged, viewCount, setGeometry. frame_tac.
Qed.

End Invariant.

(** X1. The invariant of the running program.  In every state the program
    reaches from its constructor, whatever callbacks have run and however
    the desktop has changed in between, no view is listed twice in
    [m_views], every listed view is live, and the application's event filter
    is installed. *)
Theorem reachable_invariant {tk : Toolkit} st :
  reachable st ->
  NoDup (m_views st) /\ views_live st /\ filterInstalled st = true.
Proof.
  intros Hreach. split; [by apply reachable_wf|]. split; [by apply reachable_wf|].
  induction Hreach as [d testing|d st _ IH|op st st' Hop _ IH Hrun].
  - done.
  - exact IH.
  - by eapply filter_kept_run.
Qed.

Lemma reachable_invariant_witness :
  @reachable sample_toolkit started_app /\
  NoDup (m_views started_app) /\ views_live started_app /\
  filterInstalled started_app = true.
Proof.
  assert (H : @reachable sample_toolkit started_app).
  { apply (reachable_run OpInitialViewSetup fresh_app started_app).
    - discriminate.
    - apply reachable_new.
    - vm_compute. reflexivity. }
  split; [exact H|]. exact (@reachable_invariant sample_toolkit started_app H).
Defined.

Section Delivery.
Context {tk : Toolkit}.

Lemma eventFilter_shared send obj e st :
  shared_kind (kind e) ->
  eventFilter send obj e st =
    (e' <- shareEvent send e (qobject_cast_view obj) ;; ret (false, e')) st.
Proof.
  intros Hk. unfold eventFilter.
  destruct (kind e) as [| |key|key|t] eqn:Hkind; simpl in Hk; try done.
  - rewrite (bool_decide_eq_false_2 (KeyPress key = Show)) by done.
    rewrite andb_false_r.
    by rewrite (bool_decide_eq_false_2 (KeyPress key = MouseButtonPress)).
  - rewrite (bool_decide_eq_false_2 (KeyRelease key = Show)) by done.
    rewrite andb_false_r.
    rewrite (bool_decide_eq_false_2 (KeyRelease key = MouseButtonPress)) by done.
    by rewrite bool_decide_eq_true_2.
Qed.

Lemma sendEvent_filtered fuel r e st :
  filterInstalled st = true ->
  sendEvent (S fuel) r e st =
    (res <- eventFilter (sendEvent fuel) r e ;;
     if res.1 then ret res.2 else deliver r res.2) (log (CSendEvent r e true) st).
Proof.
  intros Hf. simpl. unfold bind at 1. unfold gets at 1.
  unfold bind at 1. unfold call, modify. by rewrite Hf.
Qed.

End Delivery.

(** X6. A key typed into one overlay reaches every overlay.  When the
    toolkit dispatches a key press, or a key release other than Escape, to a
    listed view while the filter is installed, two levels of dispatch are
    enough for it to complete, and the handler of every listed view is
    given the event exactly once with the accepted flag it was sent with:
    the other views through the filter's forwarding, the addressee after it.
    No other object is given anything, no view changes, and the filter is
    installed at the end. *)
Theorem key_event_reaches_every_view {tk : Toolkit} fuel f e st :
  filterInstalled st = true ->
  NoDup (m_views st) ->
  f ∈ m_views st ->
  shared_kind (kind e) ->
  exists st' ext,
    sendEvent (S (S fuel)) (ObjView f) e st =
      Ok (setAccepted (receiver_event (ObjView f) e) e) st' /\
    trace st' = trace st ++ ext /\
    (forall v, v ∈ m_views st -> deliveries (ObjView v) ext = [e]) /\
    (forall r, (forall v, r = ObjView v -> v ∉ m_views st) -> deliveries r ext = []) /\
    views_untouched st st' /\
    filterInstalled st' = true.
Proof.
  intros Hf Hnd Hin Hk.
  eexists _, ([CSendEvent (ObjView f) e true]
              ++ (CRemoveEventFilter :: forwarding e f (m_views st)
                    ++ [CInstallEventFilter])
              ++ [CDeliver (ObjView f) e]).
  split; [|split; [|split; [|split; [|split]]]].
  - rewrite sendEvent_filtered by done.
    unfold bind at 1. rewrite eventFilter_shared by done.
    unfold bind at 1. simpl qobject_cast_view.
    rewrite shareEvent_forward by done.
    unfold ret at 1. simpl. unfold deliver, bind, call, modify, ret. reflexivity.
  - simpl. rewrite <- !app_assoc. simpl. by rewrite <- !app_assoc.
  - intros v Hv. rewrite !deliveries_app. simpl.
    rewrite deliveries_app. simpl.
    destruct (decide (v = f)) as [->|Hne].
    + rewrite deliveries_forwarding_other by (intros ? [= <-]; by right).
      by rewrite decide_True.
    + rewrite deliveries_forwarding_once by done.
      rewrite decide_False by congruence. done.
  - intros r Hr. rewrite !deliveries_app. simpl.
    rewrite deliveries_app. simpl.
    rewrite deliveries_forwarding_other by (intros v Hv; left; by apply Hr).
    rewrite decide_False; [done|]. intros <-. by apply (Hr f).
  - by repeat split.
  - done.
Qed.

Lemma key_event_reaches_every_view_witness :
  filterInstalled sample_app = true /\
  NoDup (m_views sample_app) /\
  2%positive ∈ m_views sample_app /\
  shared_kind (kind sample_release) /\
  exists st' ext,
    @sendEvent sample_toolkit 2 (ObjView 2%positive) sample_release sample_app =
      Ok (setAccepted (@receiver_event sample_toolkit (ObjView 2%positive) sample_release)
            sample_release) st' /\
    trace st' = trace sample_app ++ ext /\
    (forall v, v ∈ m_views sample_app -> deliveries (ObjView v) ext = [sample_release]) /\
    (forall r, (forall v, r = ObjView v -> v ∉ m_views sample_app) ->
       deliveries r ext = []) /\
    views_untouched sample_app st' /\
    filterInstalled st' = true.
Proof.
  assert (H1 : filterInstalled sample_app = true) by reflexivity.
  assert (H2 : NoDup (m_views sample_app))
    by (apply (bool_decide_unpack _); vm_compute; reflexivity).
  assert (H3 : 2%positive ∈ m_views sample_app)
    by (apply (bool_decide_unpack _); vm_compute; reflexivity).
  assert (H4 : shared_kind (kind sample_release)) by (simpl; discriminate).
  split; [exact H1|]. split; [exact H2|]. split; [exact H3|]. split; [exact H4|].
  exact (@key_event_reaches_every_view sample_toolkit 0 2%positive sample_release
           sample_app H1 H2 H3 H4).
Defined.

(** X7. The release of Escape goes nowhere.  While the filter is installed,
    a KeyRelease of Qt::Key_Escape dispatched to any object is consumed by
    the filter: the send is all that is recorded, no handler, not even the
    addressee's, is given the event, and the event and the state are
    otherwise as they were. *)
Theorem escape_release_is_swallowed {tk : Toolkit} fuel r e st :
  filterInstalled st = true ->
  kind e = KeyRelease Key_Escape ->
  sendEvent (S fuel) r e st = Ok e (log (CSendEvent r e true) st) /\
  forall r', deliveries r' [CSendEvent r e true] = [].
Proof.
  intros Hf Hk. split; [|done].
  rewrite sendEvent_filtered by done.
  unfold bind, eventFilter. rewrite Hk.
  rewrite (bool_decide_eq_false_2 (KeyRelease Key_Escape = Show)) by done.
  rewrite andb_false_r.
  rewrite (bool_decide_eq_false_2 (KeyRelease Key_Escape = MouseButtonPress)) by done.
  rewrite (bool_decide_eq_false_2 (Key_Escape <> Key_Escape)) by auto.
  reflexivity.
Qed.

Lemma escape_release_is_swallowed_witness :
  filterInstalled sample_app = true /\
  kind sample_escape = KeyRelease Key_Escape /\
  @sendEvent sample_toolkit 1 (ObjView 1%positive) sample_escape sample_app
    = Ok sample_escape (log (CSendEvent (ObjView 1%positive) sample_escape true) sample_app) /\
  forall r', deliveries r' [CSendEvent (ObjView 1%positive) sample_escape true] = [].
Proof.
  split; [reflexivity|]. split; [reflexivity|].
  exact (@escape_release_is_swallowed sample_toolkit 0 (ObjView 1%positive)
           sample_escape sample_app eq_refl eq_refl).
Defined.

(** X13. A key event addressed to an object that is not a listed view (the
    application itself, some other object, a view that is not in [m_views])
    is not shared: while the filter is installed, its dispatch records the
    send and the delivery to the addressee and nothing else, and the filter
    is never removed. *)
Theorem key_event_of_stranger_not_shared {tk : Toolkit} fuel obj e st :
  filterInstalled st = true ->
  shared_kind (kind e) ->
  (forall f, qobject_cast_view obj = Some f -> f ∉ m_views st) ->
  sendEvent (S fuel) obj e st =
    Ok (setAccepted (receiver_event obj e) e)
       (logs [CSendEvent obj e true; CDeliver obj e] st).
Proof.
  intros Hf Hk Hstranger.
  rewrite sendEvent_filtered by done.
  unfold bind at 1. rewrite eventFilter_shared by done.
  unfold bind at 1. rewrite shareEvent_skip by done.
  unfold ret at 1. simpl. unfold deliver, bind, call, modify, ret.
  f_equal. unfold log, logs. simpl. by rewrite <- app_assoc.
Qed.

Lemma key_event_of_stranger_not_shared_witness :
  filterInstalled sample_app = true /\
  shared_kind (kind sample_key) /\
  (forall f, qobject_cast_view (ObjView 5%positive) = Some f -> f ∉ m_views sample_app) /\
  @sendEvent sample_toolkit 1 (ObjView 5%positive) sample_key sample_app =
    Ok (setAccepted (@receiver_event sample_toolkit (ObjView 5%positive) sample_key)
          sample_key)
       (logs [CSendEvent (ObjView 5%positive) sample_key true;
              CDeliver (ObjView 5%positive) sample_key] sample_app).
Proof.
  assert (H3 : forall f, qobject_cast_view (ObjView 5%positive) = Some f ->
                         f ∉ m_views sample_app).
  { intros f [= <-]. apply (bool_decide_unpack _). vm_compute. reflexivity. }
  split; [reflexivity|]. split; [exact I|]. split; [exact H3|].
  exact (@key_event_of_stranger_not_shared sample_toolkit 0 (ObjView 5%positive)
           sample_key sample_app eq_refl I H3).
Defined.

(** X8. Events never touch the views.  Whatever the event, the object, the
    state and the depth of dispatch, a run of the event filter that
    completes leaves every view record, the list of views, the desktop and
    the mode exactly as they were, and leaves the filter installed if it was:
    all an event can change is the trace. *)
Theorem eventFilter_touches_no_view {tk : Toolkit} fuel obj e st :
  forall r st',
    eventFilter (sendEvent fuel) obj e st = Ok r st' ->
    views_untouched st st' /\
    (filterInstalled st = true -> filterInstalled st' = true).
Proof.
  intros r st' Hrun. split.
  - by eapply views_untouched_eventFilter.
  - by eapply eventFilter_filter_inv.
Qed.

Lemma eventFilter_touches_no_view_witness :
  exists r st',
    @eventFilter sample_toolkit (@sendEvent sample_toolkit 1) (ObjView 2%positive)
      sample_key sample_app = Ok r st' /\
    views_untouched sample_app st' /\
    (filterInstalled sample_app = true -> filterInstalled st' = true).
Proof.
  destruct (@shareEvent_total sample_toolkit 0 sample_key (Some 2%positive) sample_app)
    as (st' & Hshare).
  assert (Hrun : @eventFilter sample_toolkit (@sendEvent sample_toolkit 1)
                   (ObjView 2%positive) sample_key sample_app
                 = Ok (false, sample_key) st').
  { rewrite eventFilter_shared by exact I. unfold bind. simpl qobject_cast_view.
    by rewrite Hshare. }
  exists (false, sample_key), st'. split; [exact Hrun|].
  exact (@eventFilter_touches_no_view sample_toolkit 1 (ObjView 2%positive)
           sample_key sample_app (false, sample_key) st' Hrun).
Defined.

(** ** The destructor *)

Lemma deref_all_inv vs : forall st st',
  forEach vs (fun view => _ <- deref view ;; ret tt) st = Ok tt st' ->
  Forall (fun v => is_Some (heap st !! v)) vs /\ st' = st.
Proof.
  induction vs as [|v vs IH]; intros st st'; simpl.
  - intros [= <-]. by split.
  - intros (u & st1 & Hd & Hrest)%bind_Ok.
    apply bind_Ok in Hd as (q & st2 & [Hq ->]%deref_inv & [= _ <-]).
    apply IH in Hrest as [Hall ->]. split; [|done]. constructor; eauto.
Qed.

Lemma deref_all_ok vs st :
  Forall (fun v => is_Some (heap st !! v)) vs ->
  forEach vs (fun view => _ <- deref view ;; ret tt) st = Ok tt st.
Proof.
  induction 1 as [|v vs [q Hq] _ IH]; [done|].
  simpl. unfold bind at 1. unfold bind at 1. by rewrite (deref_Ok _ _ _ Hq).
Qed.

Lemma delete_all_inv vs : forall st st',
  forEach vs deleteView st = Ok tt st' ->
  NoDup vs /\ Forall (fun v => is_Some (heap st !! v)) vs /\
  m_views st' = m_views st /\ trace st' = trace st /\
  forall w, heap st' !! w = if decide (w ∈ vs) then None else heap st !! w.
Proof.
  induction vs as [|v vs IH]; intros st st'; simpl.
  - intros [= <-]. split; [apply NoDup_nil_2|]. split; [done|].
    split; [done|]. split; [done|]. intros w.
    destruct (decide (w ∈ [])) as [Hin|_]; [|done]. by apply elem_of_nil in Hin.
  - intros (u & st1 & Hdel & Hrest)%bind_Ok.
    unfold deleteView in Hdel.
    apply bind_Ok in Hdel as (q & st2 & [Hq ->]%deref_inv & [= _ <-]).
    apply IH in Hrest as (Hnd & Hlive & Hviews & Htrace & Hheap). simpl in *.
    assert (Hv : v ∉ vs).
    { intros Hin. rewrite Forall_forall in Hlive.
      destruct (Hlive v Hin) as [q' Hq']. by rewrite lookup_delete_eq in Hq'. }
    split; [by apply NoDup_cons|]. split.
    { constructor; [eauto|]. eapply Forall_impl; [exact Hlive|].
      intros w [qw Hw]. simpl in *.
      apply lookup_delete_Some in Hw as [_ Hw]. eauto. }
    split; [done|]. split; [done|]. intros w. rewrite Hheap.
    destruct (decide (w ∈ v :: vs)) as [Hc|Hc];
      destruct (decide (w ∈ vs)) as [Hin|Hout]; try done.
    + apply elem_of_cons in Hc as [->|?]; [|done]. apply lookup_delete_eq.
    + exfalso. apply Hc, elem_of_cons. by right.
    + apply lookup_delete_ne. intros ->. apply Hc, elem_of_cons. by left.
Qed.

Lemma delete_all_ok vs : forall st,
  NoDup vs -> Forall (fun v => is_Some (heap st !! v)) vs ->
  exists st', forEach vs deleteView st = Ok tt st'.
Proof.
  induction vs as [|v vs IH]; intros st Hnd Hlive; simpl.
  - by eexists.
  - apply NoDup_cons in Hnd as [Hv Hnd]. apply Forall_cons in Hlive as [[q Hq] Hlive].
    destruct (IH (set_heap (delete v (heap st)) st) Hnd) as (st' & Hrun).
    { rewrite Forall_forall in Hlive. apply Forall_forall. intros w Hw. simpl.
      rewrite lookup_delete_ne by (intros ->; done). by apply Hlive. }
    exists st'. unfold bind at 1. unfold deleteView. unfold bind at 1.
    rewrite (deref_Ok _ _ _ Hq). exact Hrun.
Qed.

(** X9. The destructor is safe exactly on well-formed states.  It completes
    if and only if no view is listed twice and every listed view is live (a
    view listed twice would be deleted twice, a dead one read through a
    dangling pointer); and when it completes, every listed view is gone, the
    views that are not listed (those waiting for deleteLater, say) are as
    they were, and [m_views] itself is left as it was, its pointers now
    dangling. *)
Theorem destructor_safe_iff_well_formed st :
  ((exists st', Application_delete st = Ok tt st') <-> wf st) /\
  (forall st', Application_delete st = Ok tt st' ->
     m_views st' = m_views st /\ trace st' = trace st /\
     forall w, heap st' !! w = if decide (w ∈ m_views st) then None else heap st !! w).
Proof.
  assert (Hinv : forall st', Application_delete st = Ok tt st' ->
            wf st /\ m_views st' = m_views st /\ trace st' = trace st /\
            forall w, heap st' !! w = if decide (w ∈ m_views st) then None
                                      else heap st !! w).
  { intros st'. unfold Application_delete.
    intros (vs & st0 & [= <- <-] & (u & st1 & Hread & Hdel)%bind_Ok)%bind_Ok.
    destruct u. apply deref_all_inv in Hread as [Hlive ->].
    apply delete_all_inv in Hdel as (Hnd & _ & Hviews & Htrace & Hheap).
    by repeat split. }
  split; [split|].
  - intros (st' & Hrun). by apply Hinv in Hrun as [? _].
  - intros [Hnd Hlive].
    destruct (delete_all_ok (m_views st) st Hnd Hlive) as (st' & Hrun).
    exists st'. unfold Application_delete. unfold bind at 1. unfold gets at 1.
    by rewrite (bind_run _ _ _ _ _ (deref_all_ok _ _ Hlive)).
  - intros st' Hrun. by apply Hinv in Hrun as (_ & ? & ? & ?).
Qed.

Lemma destructor_safe_iff_well_formed_witness :
  wf sample_app /\ exists st', Application_delete sample_app = Ok tt st'.
Proof.
  assert (H : wf sample_app) by (apply (bool_decide_unpack _); vm_compute; reflexivity).
  split; [exact H|].
  exact (proj2 (proj1 (destructor_safe_iff_well_formed sample_app)) H).
Defined.

(** ** From the first frame to the grab *)

Lemma markViewsAsVisible_exact v q st :
  heap st !! v = Some q ->
  markViewsAsVisible v st =
    Ok tt (logs [CDisconnectFrameSwapped v; CInvokeQueuedGetFocus]
             (set_heap (<[v := made_visible q]> (heap st)) st)).
Proof.
  intros Hq. unfold markViewsAsVisible, setViewVisible.
  unfold bind at 1. unfold call at 1. unfold modify at 1.
  unfold bind at 1. erewrite update_Ok by exact Hq.
  unfold call, modify, log, logs, set_heap, made_visible. simpl.
  by rewrite <- app_assoc.
Qed.

Lemma grab_all_viewVisible (h : gmap positive QQuickView) vs w v :
  viewVisible <$> alter grabbed w (foldl (fun h v => alter grabbed v h) h vs) !! v
    = viewVisible <$> h !! v.
Proof.
  rewrite lookup_alter.
  destruct (decide (w = v)) as [->|Hne]; rewrite lookup_grab_all;
    destruct (decide (_ ∈ vs)); destruct (h !! v); done.
Qed.

(** X11. From the first frame to the grab.  When a frame of a live view has
    been swapped, [markViewsAsVisible] makes that view's lock screen visible
    and queues [getFocus]; once that queued [getFocus] runs (not in testing
    mode, with at least one view), every listed view has the keyboard grab
    and activation has been requested for the active screen.  What
    [markViewsAsVisible] wrote is still there, and the geometry of no view
    has changed. *)
Theorem first_frame_then_focus {tk : Toolkit} v st :
  views_live st ->
  is_Some (heap st !! v) ->
  m_testing st = false ->
  m_views st <> [] ->
  exists st' w,
    (markViewsAsVisible v ;;; getFocus) st = Ok tt st' /\
    is_active_screen st w /\
    trace st' = trace st ++ [CDisconnectFrameSwapped v; CInvokeQueuedGetFocus;
                             CRequestActivate w] /\
    view_field viewVisible st' v = Some true /\
    (forall u, u ∈ m_views st -> view_field keyboardGrab st' u = Some true) /\
    (forall u, view_field geometry st' u = view_field geometry st u) /\
    m_views st' = m_views st.
Proof.
  intros Hlive [q Hq] Ht Hne.
  pose proof (markViewsAsVisible_exact v q st Hq) as Hmark.
  set (st1 := logs [CDisconnectFrameSwapped v; CInvokeQueuedGetFocus]
                (set_heap (<[v := made_visible q]> (heap st)) st)) in *.
  assert (Hlive1 : views_live st1).
  { unfold views_live in *. simpl. eapply Forall_impl; [exact Hlive|].
    intros u Hu. simpl in *. destruct (decide (v = u)) as [->|Hvu].
    - rewrite lookup_insert_eq. eauto.
    - by rewrite lookup_insert_ne. }
  assert (Hcur : forall u, under_cursor st1 u = under_cursor st u).
  { intros u. unfold under_cursor. simpl.
    destruct (decide (v = u)) as [->|Hvu].
    - by rewrite lookup_insert_eq, Hq.
    - by rewrite lookup_insert_ne. }
  destruct (getFocus_spec st1 Hlive1) as (r & _ & Hnull & Hact & Hfocus).
  destruct r as [w|]; [|by destruct Hne; apply Hnull].
  simpl in Hfocus. rewrite Ht in Hfocus.
  assert (Hw : is_active_screen st w).
  { destruct (Hact w eq_refl) as [(pre & post & Hvs & Hpre & Hwc)|[Hall Hhead]].
    - left. exists pre, post. split; [done|]. split.
      + eapply Forall_impl; [exact Hpre|]. intros u Hu. simpl in Hu. by rewrite <- Hcur.
      + by rewrite <- Hcur.
    - right. split; [|done].
      eapply Forall_impl; [exact Hall|]. intros u Hu. simpl in Hu. by rewrite <- Hcur. }
  eexists _, w. split.
  { unfold bind. rewrite Hmark. exact Hfocus. }
  split; [done|]. unfold st1 in *.
  split; [simpl; by rewrite <- app_assoc|].
  unfold view_field. simpl.
  split; [|split; [|split; [|done]]].
  - rewrite grab_all_viewVisible. by rewrite lookup_insert_eq.
  - intros u Hu. apply grab_all_grabbed; [done|].
    by apply (views_live_elem st1).
  - intros u. rewrite lookup_alter.
    assert (Hgeo : geometry <$> <[v := made_visible q]> (heap st) !! u
                   = geometry <$> heap st !! u).
    { destruct (decide (v = u)) as [->|Hvu].
      - by rewrite lookup_insert_eq, Hq.
      - by rewrite lookup_insert_ne. }
    rewrite <- Hgeo.
    destruct (decide (w = u)) as [->|Hwu]; rewrite lookup_grab_all;
      destruct (decide (_ ∈ m_views st));
      destruct (<[v := made_visible q]> (heap st) !! u); done.
Qed.

Lemma first_frame_then_focus_witness :
  views_live sample_app /\
  is_Some (heap sample_app !! 1%positive) /\
  m_testing sample_app = false /\
  m_views sample_app <> [] /\
  exists st' w,
    (markViewsAsVisible 1%positive ;;; @getFocus sample_toolkit) sample_app = Ok tt st' /\
    @is_active_screen sample_toolkit sample_app w /\
    trace st' = trace sample_app
                  ++ [CDisconnectFrameSwapped 1%positive; CInvokeQueuedGetFocus;
                      CRequestActivate w] /\
    view_field viewVisible st' 1%positive = Some true /\
    (forall u, u ∈ m_views sample_app -> view_field keyboardGrab st' u = Some true) /\
    (forall u, view_field geometry st' u = view_field geometry sample_app u) /\
    m_views st' = m_views sample_app.
Proof.
  assert (H1 : views_live sample_app)
    by (apply (bool_decide_unpack _); vm_compute; reflexivity).
  assert (H2 : is_Some (heap sample_app !! 1%positive)) by (vm_compute; eauto).
  assert (H4 : m_views sample_app <> []) by discriminate.
  split; [exact H1|]. split; [exact H2|]. split; [reflexivity|]. split; [exact H4|].
  exact (@first_frame_then_focus sample_toolkit 1%positive sample_app H1 H2 eq_refl H4).
Defined.

(** ** The whole slide *)

(** X12. The slide from start to end.  From a state whose main view is [mv],
    [onSucceeded], then the animation's last value (its end value), then its
    finished signal: the main view ends exactly one height above where it
    was (in [int] arithmetic), with its x, width, height and every other
    field as before; every other view is untouched; and the toolkit has been
    asked for one animation and then, once, for exit. *)
Theorem slide_out_end_state st mv q :
  views_live st ->
  is_main_view st mv ->
  heap st !! mv = Some q ->
  let y := ry (geometry q) in
  let h := rheight (geometry q) in
  let a := mkAnimation mv 500 OutSine y (int (y - h)) in
  exists st',
    (onSucceeded ;;; animation_valueChanged a (ani_endValue a) ;;; animation_finished) st
      = Ok tt st' /\
    heap st' = <[mv := moved_to (int (y - h)) q]> (heap st) /\
    m_views st' = m_views st /\
    trace st' = trace st ++ [CAnimationStart a; CExit].
Proof.
  intros Hlive (pre & post & Hvs & Hpre & Hmv) Hq y h a.
  eexists. split.
  - unfold bind at 1. rewrite onSucceeded_spec by done.
    rewrite Hvs, (find_first_unique _ _ _ _ Hpre Hmv), Hq.
    fold y h a. unfold bind, animation_valueChanged, setY.
    erewrite update_Ok by (simpl; exact Hq).
    unfold animation_finished, call, modify. reflexivity.
  - simpl. split; [done|]. split; [done|]. by rewrite <- app_assoc.
Qed.

Lemma slide_out_end_state_witness :
  views_live sample_app /\
  is_main_view sample_app 1%positive /\
  heap sample_app !! 1%positive = Some (sample_view 7 (mkRect 0 0 1920 1080)) /\
  let a := mkAnimation 1%positive 500 OutSine 0 (int (0 - 1080)) in
  exists st',
    (onSucceeded ;;; animation_valueChanged a (ani_endValue a) ;;; animation_finished)
      sample_app = Ok tt st' /\
    heap st' = <[1%positive := moved_to (int (0 - 1080))
                                 (sample_view 7 (mkRect 0 0 1920 1080))]>
                 (heap sample_app) /\
    m_views st' = m_views sample_app /\
    trace st' = trace sample_app ++ [CAnimationStart a; CExit].
Proof.
  assert (H1 : views_live sample_app)
    by (apply (bool_decide_unpack _); vm_compute; reflexivity).
  assert (H2 : is_main_view sample_app 1%positive).
  { exists [], [2; 3]%positive. split; [reflexivity|]. split; [constructor|].
    vm_compute. reflexivity. }
  assert (H3 : heap sample_app !! 1%positive = Some (sample_view 7 (mkRect 0 0 1920 1080)))
    by (vm_compute; reflexivity).
  split; [exact H1|]. split; [exact H2|]. split; [exact H3|].
  exact (slide_out_end_state sample_app 1%positive
           (sample_view 7 (mkRect 0 0 1920 1080)) H1 H2 H3).
Defined.

(** ** Nothing but Escape is eaten *)

(** X14. The filter eats nothing but the release of Escape.  While the
    filter is installed and the listed views are live, every other event,
    to whatever object, is dispatched to the end within two levels of
    dispatch and its addressee's handler is given it exactly once, with the
    accepted flag the event was sent with, whatever the filter did on the
    way (requesting an activation, sharing a key with the other views). *)
Theorem only_escape_release_is_eaten {tk : Toolkit} fuel obj e st :
  views_live st ->
  filterInstalled st = true ->
  kind e <> KeyRelease Key_Escape ->
  exists st' ext,
    sendEvent (S (S fuel)) obj e st = Ok (setAccepted (receiver_event obj e) e) st' /\
    trace st' = trace st ++ ext /\
    deliveries obj ext = [e] /\
    filterInstalled st' = true.
Proof.
  intros Hlive Hf Hk.
  assert (Hpass : forall cs,
    eventFilter (sendEvent (S fuel)) obj e (log (CSendEvent obj e true) st)
      = Ok (false, e) (logs cs (log (CSendEvent obj e true) st)) ->
    deliveries obj cs = [] ->
    exists st' ext,
      sendEvent (S (S fuel)) obj e st = Ok (setAccepted (receiver_event obj e) e) st' /\
      trace st' = trace st ++ ext /\
      deliveries obj ext = [e] /\
      filterInstalled st' = true).
  { intros cs Hrun Hnone.
    eexists _, ([CSendEvent obj e true] ++ cs ++ [CDeliver obj e]).
    split; [|split; [|split]].
    - rewrite sendEvent_filtered by done. unfold bind at 1. rewrite Hrun.
      simpl. unfold deliver, bind, call, modify, ret. reflexivity.
    - simpl. rewrite <- !app_assoc. reflexivity.
    - simpl. rewrite deliveries_app, Hnone. simpl. by rewrite decide_True.
    - done. }
  set (st0 := log (CSendEvent obj e true) st).
  assert (Hlive0 : views_live st0) by done.
  destruct (kind e) as [| |key|key|t] eqn:Hkind.
  - apply (Hpass []); [|done]. rewrite logs_nil.
    unfold eventFilter. rewrite Hkind.
    destruct (bool_decide (obj <> ObjApplication)); simpl; done.
  - destruct (eventFilter_mouse (sendEvent (S fuel)) obj e st0 Hlive0 Hkind)
      as (r & _ & _ & _ & Hrun).
    destruct r as [w|].
    + apply (Hpass [CRequestActivate w]); [|done]. exact Hrun.
    + apply (Hpass []); [|done]. by rewrite logs_nil.
  - assert (Hshared : shared_kind (kind e)) by (by rewrite Hkind).
    destruct (qobject_cast_view obj) as [f|] eqn:Hcast.
    + destruct obj as [|f'|n]; simpl in Hcast; try done. injection Hcast as ->.
      destruct (decide (f ∈ m_views st0)) as [Hin|Hout].
      * apply (Hpass (CRemoveEventFilter :: forwarding e f (m_views st0)
                        ++ [CInstallEventFilter])).
        -- rewrite eventFilter_shared by done. unfold bind. simpl qobject_cast_view.
           rewrite shareEvent_forward by done.
           unfold ret, set_filter, logs. simpl. by rewrite Hf.
        -- simpl. rewrite deliveries_app. simpl. rewrite app_nil_r.
           apply deliveries_forwarding_other. intros ? [= <-]. by right.
      * apply (Hpass []); [|done]. rewrite logs_nil.
        rewrite eventFilter_shared by done. unfold bind. simpl qobject_cast_view.
        rewrite shareEvent_skip; [done|]. by intros ? [= <-].
    + apply (Hpass []); [|done]. rewrite logs_nil.
      rewrite eventFilter_shared by done. unfold bind. rewrite Hcast.
      by rewrite shareEvent_skip.
  - assert (Hshared : shared_kind (kind e)).
    { rewrite Hkind. simpl. congruence. }
    destruct (qobject_cast_view obj) as [f|] eqn:Hcast.
    + destruct obj as [|f'|n]; simpl in Hcast; try done. injection Hcast as ->.
      destruct (decide (f ∈ m_views st0)) as [Hin|Hout].
      * apply (Hpass (CRemoveEventFilter :: forwarding e f (m_views st0)
                        ++ [CInstallEventFilter])).
        -- rewrite eventFilter_shared by done. unfold bind. simpl qobject_cast_view.
           rewrite shareEvent_forward by done.
           unfold ret, set_filter, logs. simpl. by rewrite Hf.
        -- simpl. rewrite deliveries_app. simpl. rewrite app_nil_r.
           apply deliveries_forwarding_other. intros ? [= <-]. by right.
      * apply (Hpass []); [|done]. rewrite logs_nil.
        rewrite eventFilter_shared by done. unfold bind. simpl qobject_cast_view.
        rewrite shareEvent_skip; [done|]. by intros ? [= <-].
    + apply (Hpass []); [|done]. rewrite logs_nil.
      rewrite eventFilter_shared by done. unfold bind. rewrite Hcast.
      by rewrite shareEvent_skip.
  - apply (Hpass []); [|done]. rewrite logs_nil.
    unfold eventFilter. rewrite Hkind.
    rewrite (bool_decide_eq_false_2 (OtherEvent t = Show)) by done.
    rewrite andb_false_r.
    by rewrite (bool_decide_eq_false_2 (OtherEvent t = MouseButtonPress)).
Qed.

Lemma only_escape_release_is_eaten_witness :
  views_live sample_app /\
  filterInstalled sample_app = true /\
  kind (mkEvent MouseButtonPress true) <> KeyRelease Key_Escape /\
  exists st' ext,
    @sendEvent sample_toolkit 2 (ObjView 1%positive) (mkEvent MouseButtonPress true)
      sample_app
      = Ok (setAccepted (@receiver_event sample_toolkit (ObjView 1%positive)
                           (mkEvent MouseButtonPress true))
              (mkEvent MouseButtonPress true)) st' /\
    trace st' = trace sample_app ++ ext /\
    deliveries (ObjView 1%positive) ext = [mkEvent MouseButtonPress true] /\
    filterInstalled st' = true.
Proof.
  assert (H1 : views_live sample_app)
    by (apply (bool_decide_unpack _); vm_compute; reflexivity).
  assert (H3 : kind (mkEvent MouseButtonPress true) <> KeyRelease Key_Escape)
    by discriminate.
  split; [exact H1|]. split; [reflexivity|]. split; [exact H3|].
  exact (@only_escape_release_is_eaten sample_toolkit 0 (ObjView 1%positive)
           (mkEvent MouseButtonPress true) sample_app H1 eq_refl H3).
Defined.

(** ** A screen comes and goes *)

Lemma wf_set_desktop d st : wf st -> wf (set_desktop d st).
Proof. done. Qed.

(** X15. Hot-plug round trip.  From a well-formed state with one view per
    screen, let screens be added (a desktop with at least as many screens)
    and [desktopResized] run, then let the desktop be as it was and
    [desktopResized] run again: the list of views is the one we started
    from, pointer for pointer, and what the second run hands to deleteLater
    is exactly the views the first run made, last first, none of which was
    live before. *)
Theorem screens_added_then_removed d' st :
  wf st ->
  length (m_views st) = length (screens (desktop st)) ->
  (length (screens (desktop st)) <= length (screens d'))%nat ->
  exists st1 st2 news,
    desktopResized (set_desktop d' st) = Ok tt st1 /\
    m_views st1 = m_views st ++ news /\
    Forall (fun v => heap st !! v = None) news /\
    desktopResized (set_desktop (desktop st) st1) = Ok tt st2 /\
    m_views st2 = m_views st /\
    deleted_later (drop (length (trace st1)) (trace st2)) = reverse news.
Proof.
  intros Hwf Hone Hmore.
  destruct (desktopResized_spec (set_desktop d' st) (wf_set_desktop d' st Hwf))
    as (st1 & news & Hrun1 & Hwf1 & _ & Hviews1 & Hlen1 & Hfresh1 & _).
  simpl in *. rewrite take_ge in Hviews1 by lia.
  destruct (desktopResized_spec (set_desktop (desktop st) st1)
              (wf_set_desktop (desktop st) st1 Hwf1))
    as (st2 & news2 & Hrun2 & _ & _ & Hviews2 & Hlen2 & _ & _ & Htrace2).
  simpl in *.
  assert (news2 = []) as ->.
  { apply length_zero_iff_nil. rewrite Hlen2, Hviews1, length_app. lia. }
  rewrite app_nil_r in Hviews2.
  rewrite Hviews1, <- Hone, take_app_length in Hviews2.
  exists st1, st2, news. split; [done|]. split; [done|]. split; [done|].
  split; [done|]. split; [done|].
  rewrite Htrace2, drop_app_length.
  rewrite !deleted_later_app, deleted_later_deleteLater, deleted_later_connect,
    deleted_later_raise, !app_nil_r.
  by rewrite Hviews1, <- Hone, drop_app_length.
Qed.

Lemma screens_added_then_removed_witness :
  wf started_app /\
  length (m_views started_app) = length (screens (desktop started_app)) /\
  (length (screens (desktop started_app))
     <= length (screens (mkDesktop [7; 9; 11]%positive (Some 7%positive)
                           (screenGeometry sample_desktop) (mkPoint 0 0))))%nat /\
  exists st1 st2 news,
    desktopResized
      (set_desktop (mkDesktop [7; 9; 11]%positive (Some 7%positive)
                              (screenGeometry sample_desktop) (mkPoint 0 0))
                   started_app) = Ok tt st1 /\
    m_views st1 = m_views started_app ++ news /\
    Forall (fun v => heap started_app !! v = None) news /\
    desktopResized (set_desktop (desktop started_app) st1) = Ok tt st2 /\
    m_views st2 = m_views started_app /\
    deleted_later (drop (length (trace st1)) (trace st2)) = reverse news.
Proof.
  assert (H1 : wf started_app) by (apply (bool_decide_unpack _); vm_compute; reflexivity).
  assert (H2 : length (m_views started_app) = length (screens (desktop started_app)))
    by (vm_compute; reflexivity).
  assert (H3 : (length (screens (desktop started_app))
     <= length (screens (mkDesktop [7; 9; 11]%positive (Some 7%positive)
                           (screenGeometry sample_desktop) (mkPoint 0 0))))%nat)
    by (vm_compute; lia).
  split; [exact H1|]. split; [exact H2|]. split; [exact H3|].
  exact (screens_added_then_removed
           (mkDesktop [7; 9; 11]%positive (Some 7%positive)
                      (screenGeometry sample_desktop) (mkPoint 0 0))
           started_app H1 H2 H3).
Defined.
